(** * Connection manager core: [createConfig] and the connector transport

    A shallow embedding of [packages/core/src/createConfig.ts] (the
    connection state store, the three connector event handlers, the
    per-chain client cache and the public [setState]) and of the
    [experimental_connector] transport, together with the properties the
    specification states about them.

    Conventions of the embedding:
    - a JavaScript [Map] is an association list kept in insertion order;
    - [number] chain ids are integers ([Z]);
    - an optional field or an [undefined] value is an [option];
    - objects that are compared by reference (connectors, clients) carry
      the identity they were allocated with;
    - a function that can throw runs in the monad [M], which threads the
      mutable world of the config object and records the exception. *)

From Stdlib Require Import ZArith List Bool Lia.
From stdpp Require Import gmap strings list.

Open Scope Z_scope.
Open Scope string_scope.

(** ** JavaScript [Map]: keys in insertion order *)

Module JsMap.

Definition t (V : Type) : Type := list (string * V).

Definition empty {V} : t V := [].

(** [m.get(k)] *)
Fixpoint get {V} (k : string) (m : t V) : option V :=
  match m with
  | [] => None
  | (k', v) :: m' => if String.eqb k' k then Some v else get k m'
  end.

(** [m.set(k, v)]: an existing key keeps its position, a new key goes
    last. *)
Fixpoint set {V} (k : string) (v : V) (m : t V) : t V :=
  match m with
  | [] => [(k, v)]
  | (k', v') :: m' =>
      if String.eqb k' k then (k, v) :: m' else (k', v') :: set k v m'
  end.

(** [m.delete(k)] *)
Fixpoint delete {V} (k : string) (m : t V) : t V :=
  match m with
  | [] => []
  | (k', v) :: m' =>
      if String.eqb k' k then delete k m' else (k', v) :: delete k m'
  end.

(** [m.size] *)
Definition size {V} (m : t V) : nat := length m.

(** [m.values().next().value] *)
Definition first_value {V} (m : t V) : option V :=
  match m with
  | [] => None
  | (_, v) :: _ => Some v
  end.

Definition keys {V} (m : t V) : list string := map fst m.

(** A list stands for a [Map] when no key occurs twice. *)
Definition wf {V} (m : t V) : Prop := NoDup (keys m).

End JsMap.

(** ** Data model *)

Definition Address := string.

Module Chain.
Record t := { id : Z }.
End Chain.

(** A connector as the config object sees it: the [uid] of its emitter,
    the [isPriorityProvider] flag, and the identity of the object. *)
Module Connector.
Record t := {
  ref : nat;
  uid : string;
  isPriorityProvider : bool
}.
End Connector.

Module Connection.
Record t := {
  accounts : list Address;
  chainId : Z;
  connector : Connector.t
}.
End Connection.

Inductive Status := connected | connecting | disconnected | reconnecting.

Module State.
Record t := {
  chainId : Z;
  connections : JsMap.t Connection.t;
  current : option string;
  status : Status
}.
End State.

(** Exceptions raised by the code under study. *)
Inductive Error :=
| TypeError
| ChainNotConfiguredError.

(** Event payloads ([EventData<ConnectorEventMap, _>]). *)
Module ChangeData.
Record t := {
  uid : string;
  accounts : option (list Address);
  chainId : option Z
}.
End ChangeData.

Module ConnectData.
Record t := {
  uid : string;
  accounts : list Address;
  chainId : Z
}.
End ConnectData.

Module DisconnectData.
Record t := { uid : string }.
End DisconnectData.

(** Calls made on a connector's emitter. *)
Inductive EventName := ev_change | ev_connect | ev_disconnect.

Inductive EmitterOp :=
| emitter_off (connector_uid : string) (ev : EventName)
| emitter_on (connector_uid : string) (ev : EventName).

(** ** Clients *)

Inductive OptionValue :=
| plain (v : string)
| per_chain (vs : list (Z * string)).

(** Where a client sends its requests: to the provider of a connector
    ([custom] over [connector.getProvider()]), to the transport
    configured for the chain ([rest.transports[chainId]]), or wherever
    the client built by [rest.client] sends them. *)
Inductive Transport :=
| custom_connector (c : Connector.t)
| configured_transport (chain_id : Z)
| client_factory.

Module Client.
Record t := {
  ref : nat;
  chain : Chain.t;
  batch : string;
  properties : list (string * option string);
  transport : Transport
}.
End Client.

(** ** Configuration *)

Record CreateConfigParameters := {
  param_chains : Chain.t * list Chain.t;
  param_syncConnectedChain : option bool;
  param_client : bool;
  param_rest : list (string * OptionValue)
}.

(** ** The mutable world of one config object *)

Record World := {
  store : State.t;
  connectors : list Connector.t;
  clients : gmap Z Client.t;
  allocated : nat;
  emitter_calls : list EmitterOp
}.

Inductive Completion (A : Type) :=
| Normal (a : A)
| Throw (e : Error).
Arguments Normal {A} a.
Arguments Throw {A} e.

Definition M (A : Type) : Type := World -> Completion A * World.

Definition ret {A} (a : A) : M A := fun w => (Normal a, w).

Definition throw {A} (e : Error) : M A := fun w => (Throw e, w).

Definition bind {A B} (c : M A) (k : A -> M B) : M B :=
  fun w =>
    match c w with
    | (Normal a, w') => k a w'
    | (Throw e, w') => (Throw e, w')
    end.

Notation "'do' x <- c ; k" := (bind c (fun x => k))
  (at level 10, x name, c at level 100, k at level 200).
Notation "'run' c ; k" := (bind c (fun _ => k))
  (at level 10, c at level 100, k at level 200).

Definition getState : M State.t := fun w => (Normal (store w), w).

Definition with_store (s : State.t) (w : World) : World :=
  {| store := s; connectors := connectors w; clients := clients w;
     allocated := allocated w; emitter_calls := emitter_calls w |}.

Definition emit_call (op : EmitterOp) : M unit := fun w =>
  (Normal tt,
   {| store := store w; connectors := connectors w; clients := clients w;
      allocated := allocated w; emitter_calls := emitter_calls w ++ [op] |}).

Definition getConnectors : M (list Connector.t) := fun w =>
  (Normal (connectors w), w).

Definition getClients : M (gmap Z Client.t) := fun w =>
  (Normal (clients w), w).

(** [o.f] where [o] may be [undefined]. *)
Definition get_property {A B} (o : option A) (f : A -> B) : M B :=
  match o with
  | Some a => ret (f a)
  | None => throw TypeError
  end.

(** [l.some(f)] for a callback that may throw. *)
Fixpoint some_M {A} (f : A -> M bool) (l : list A) : M bool :=
  match l with
  | [] => ret false
  | a :: l' => do b <- f a; if b then ret true else some_M f l'
  end.

(** What an updater hands back to the store: the very object it was
    given, or a new one. *)
Inductive Update :=
| Unchanged
| Replaced (next : State.t).

(** ** Values reaching the public [setState] *)

Record ObjectValue := {
  o_chainId : option Z;
  o_connections : option (JsMap.t Connection.t);
  o_current : option (option string);
  o_status : option Status
}.

Inductive JsValue :=
| js_undefined
| js_null
| js_boolean (b : bool)
| js_number (n : Z)
| js_string (s : string)
| js_function (f : State.t -> JsValue)
| js_object (o : ObjectValue).

Definition typeof (v : JsValue) : string :=
  match v with
  | js_undefined => "undefined"
  | js_null => "object"
  | js_boolean _ => "boolean"
  | js_number _ => "number"
  | js_string _ => "string"
  | js_function _ => "function"
  | js_object _ => "object"
  end.

Definition own_key (key : string) (o : ObjectValue) : bool :=
  if String.eqb key "chainId" then bool_decide (is_Some (o_chainId o))
  else if String.eqb key "connections" then bool_decide (is_Some (o_connections o))
  else if String.eqb key "current" then bool_decide (is_Some (o_current o))
  else if String.eqb key "status" then bool_decide (is_Some (o_status o))
  else false.

(** [key in v]: a [TypeError] unless [v] is an object or a function. *)
Definition has_property (key : string) (v : JsValue) : M bool :=
  match v with
  | js_object o => ret (own_key key o)
  | js_function _ => ret false
  | _ => throw TypeError
  end.

Definition of_state (s : State.t) : ObjectValue :=
  {| o_chainId := Some (State.chainId s);
     o_connections := Some (State.connections s);
     o_current := Some (State.current s);
     o_status := Some (State.status s) |}.

Definition to_state (o : ObjectValue) : option State.t :=
  match o_chainId o, o_connections o, o_current o, o_status o with
  | Some c, Some m, Some cur, Some st =>
      Some {| State.chainId := c; State.connections := m;
              State.current := cur; State.status := st |}
  | _, _, _, _ => None
  end.

(** ** [createConfig] *)

Section CreateConfig.

Variable parameters : CreateConfigParameters.

Definition chains : list Chain.t :=
  fst (param_chains parameters) :: snd (param_chains parameters).

(** [syncConnectedChain = true] in the destructuring of the parameters. *)
Definition syncConnectedChain : bool :=
  match param_syncConnectedChain parameters with
  | Some b => b
  | None => true
  end.

Definition initialState : State.t :=
  {| State.chainId := Chain.id (fst (param_chains parameters));
     State.connections := JsMap.empty;
     State.current := None;
     State.status := disconnected |}.

(** [Object.keys(initialState)] *)
Definition initialState_keys : list string :=
  ["chainId"; "connections"; "current"; "status"].

(** *** The store and its subscription *)

(** [chains.some((x) => x.id === chainId)] *)
Definition isChainConfigured (chainId : option Z) : bool :=
  match chainId with
  | Some c => existsb (fun x => Z.eqb (Chain.id x) c) chains
  | None => false
  end.

(** The selector of the subscription:
    [current ? connections.get(current)?.chainId : undefined]. *)
Definition selected_chainId (s : State.t) : option Z :=
  match State.current s with
  | Some c =>
      if String.eqb c "" then None
      else option_map Connection.chainId (JsMap.get c (State.connections s))
  | None => None
  end.

Definition set_chainId (c : Z) (x : State.t) : State.t :=
  {| State.chainId := c;
     State.connections := State.connections x;
     State.current := State.current x;
     State.status := State.status x |}.

(** The listener of the subscription, applied to the state [x] the store
    holds when it runs. *)
Definition sync_listener (chainId : option Z) (x : State.t) : State.t :=
  if isChainConfigured chainId then
    set_chainId (match chainId with Some c => c | None => State.chainId x end) x
  else x.

(** The store replaces [prev] by [next] and notifies its listeners. The
    subscription remembers the slice it selected last, which is the
    slice of [prev]; its listener runs when the slice of [next]
    differs, and the state it writes selects the same slice again. *)
Definition commit (prev next : State.t) : State.t :=
  if syncConnectedChain then
    if decide (selected_chainId prev = selected_chainId next) then next
    else sync_listener (selected_chainId next) next
  else next.

(** The same protocol with the listener's own [setState] written as the
    nested call it is; [slice] is the slice remembered so far. *)
Fixpoint notify (fuel : nat) (slice : option Z) (next : State.t)
  : option State.t :=
  match fuel with
  | O => None
  | S fuel' =>
      if syncConnectedChain then
        let nextSlice := selected_chainId next in
        if decide (slice = nextSlice) then Some next
        else if isChainConfigured nextSlice then
          notify fuel' nextSlice
            (set_chainId
               (match nextSlice with Some c => c | None => State.chainId next end)
               next)
        else Some next
      else Some next
  end.

(** [store.setState(partial)] for an updater [partial]. *)
Definition store_setState (partial : State.t -> M Update) : M unit :=
  do x <- getState;
  do u <- partial x;
  match u with
  | Unchanged => ret tt
  | Replaced next => fun w => (Normal tt, with_store (commit x next) w)
  end.

(** *** Emitter listeners *)

(** The updaters are named after the handler that passes them to
    [store.setState]. *)
Definition change_update (data : ChangeData.t) (x : State.t) : M Update :=
    let connection := JsMap.get (ChangeData.uid data) (State.connections x) in
    do accounts <-
      match ChangeData.accounts data with
      | Some a => ret a
      | None => get_property connection Connection.accounts
      end;
    do chainId <-
      match ChangeData.chainId data with
      | Some c => ret c
      | None => get_property connection Connection.chainId
      end;
    do connector <- get_property connection Connection.connector;
    ret (Replaced
      {| State.chainId := State.chainId x;
         State.connections :=
           JsMap.set (ChangeData.uid data)
             {| Connection.accounts := accounts;
                Connection.chainId := chainId;
                Connection.connector := connector |}
             (State.connections x);
         State.current := State.current x;
         State.status := State.status x |}).

Definition change (data : ChangeData.t) : M unit :=
  store_setState (change_update data).

Definition connect_update (data : ConnectData.t) (x : State.t) : M Update :=
      do registry <- getConnectors;
      match find (fun c => String.eqb (Connector.uid c) (ConnectData.uid data))
                 registry with
      | None => ret Unchanged
      | Some connector =>
          ret (Replaced
            {| State.chainId := State.chainId x;
               State.connections :=
                 JsMap.set (ConnectData.uid data)
                   {| Connection.accounts := ConnectData.accounts data;
                      Connection.chainId := ConnectData.chainId data;
                      Connection.connector := connector |}
                   (State.connections x);
               State.current := Some (ConnectData.uid data);
               State.status := connected |})
      end.

Definition connect (data : ConnectData.t) : M unit :=
  do s <- getState;
  match State.status s with
  | connecting | reconnecting => ret tt
  | _ => store_setState (connect_update data)
  end.

(** [x.connections.delete(data.uid)] empties the entry in the map of the
    state being replaced; the state that is committed holds a copy of
    what remains. *)
Definition disconnect_update (data : DisconnectData.t) (x : State.t)
  : M Update :=
    let connection := JsMap.get (DisconnectData.uid data) (State.connections x) in
    run match connection with
        | Some c =>
            let e := Connector.uid (Connection.connector c) in
            run emit_call (emitter_off e ev_change);
            run emit_call (emitter_off e ev_disconnect);
            emit_call (emitter_on e ev_connect)
        | None => ret tt
        end;
    let remaining := JsMap.delete (DisconnectData.uid data) (State.connections x) in
    if Nat.eqb (JsMap.size remaining) 0 then
      ret (Replaced
        {| State.chainId := State.chainId x;
           State.connections := JsMap.empty;
           State.current := None;
           State.status := disconnected |})
    else
      let nextConnection := JsMap.first_value remaining in
      do next_uid <-
        get_property nextConnection
          (fun c => Connector.uid (Connection.connector c));
      ret (Replaced
        {| State.chainId := State.chainId x;
           State.connections := remaining;
           State.current := Some next_uid;
           State.status := State.status x |}).

Definition disconnect (data : DisconnectData.t) : M unit :=
  store_setState (disconnect_update data).

(** *** The client cache *)

(** [createClient]: a new object at each call. *)
Definition createClient (chain : Chain.t) (batch : string)
    (properties : list (string * option string)) (transport : Transport)
  : M Client.t :=
  fun w =>
    (Normal {| Client.ref := allocated w; Client.chain := chain;
               Client.batch := batch; Client.properties := properties;
               Client.transport := transport |},
     {| store := store w; connectors := connectors w; clients := clients w;
        allocated := S (allocated w); emitter_calls := emitter_calls w |}).

(** [clients.set(chainId, client)] *)
Definition clients_set (chainId : Z) (client : Client.t) : M unit :=
  fun w =>
    (Normal tt,
     {| store := store w; connectors := connectors w;
        clients := <[chainId := client]> (clients w);
        allocated := allocated w; emitter_calls := emitter_calls w |}).

(** The loop over [connectorState]: the first connector that is the
    current one and declares itself a priority provider. *)
Fixpoint priority_connector (current : option string)
    (connectorState : list Connector.t) : option Connector.t :=
  match connectorState with
  | [] => None
  | connector :: others =>
      if negb (bool_decide (Some (Connector.uid connector) = current))
      then priority_connector current others
      else if Connector.isPriorityProvider connector then Some connector
      else priority_connector current others
  end.

(** The properties taken off [rest] for the chain [chainId]. *)
Fixpoint resolve_properties (chainId : Z) (entries : list (string * OptionValue))
  : list (string * option string) :=
  match entries with
  | [] => []
  | (key, value) :: entries' =>
      if String.eqb key "client" || String.eqb key "connectors"
         || String.eqb key "transports"
      then resolve_properties chainId entries'
      else
        (key,
         match value with
         | per_chain vs =>
             option_map snd (find (fun e => Z.eqb (fst e) chainId) vs)
         | plain v => Some v
         end) :: resolve_properties chainId entries'
  end.

Definition multicall : string := "multicall".

(** [properties.batch ?? { multicall: true }] *)
Definition resolve_batch (properties : list (string * option string)) : string :=
  match find (fun e => String.eqb (fst e) "batch") (rev properties) with
  | Some (_, Some b) => b
  | _ => multicall
  end.

(** [config.chainId] is the argument; [rest.client({ chain })] is taken to
    build a new client at each call, as [createClient] does. *)
Definition getClient (config_chainId : option Z) : M Client.t :=
  do s <- getState;
  let chainId :=
    match config_chainId with
    | Some c => c
    | None => State.chainId s
    end in
  let chain := find (fun x => Z.eqb (Chain.id x) chainId) chains in
  do cache <- getClients;
  match cache !! State.chainId s, chain with
  | Some client, None => ret client
  | None, None => throw ChainNotConfiguredError
  | _, Some chain =>
      match cache !! chainId with
      | Some client => ret client
      | None =>
          do connectorState <- getConnectors;
          match priority_connector (State.current s) connectorState with
          | Some connector =>
              createClient chain multicall [] (custom_connector connector)
          | None =>
              do client <-
                (if param_client parameters then
                   createClient chain multicall [] client_factory
                 else
                   let chainId := Chain.id chain in
                   let properties :=
                     resolve_properties chainId (param_rest parameters) in
                   createClient chain (resolve_batch properties) properties
                     (configured_transport chainId));
              run clients_set chainId client;
              ret client
          end
      end
  end.

(** *** The public [setState] *)

(** The value [setState] examines: its argument, or what its argument
    returns when it is a function. *)
Definition candidate (value : JsValue) (s : State.t) : JsValue :=
  match value with
  | js_function f => f s
  | _ => value
  end.

(** Past its two tests [newState] is an object that has the four keys:
    the branches that return without writing are there for the types
    only (see [setState_cases]). *)
Definition setState (value : JsValue) : M unit :=
  do s <- getState;
  let newState := candidate value s in
  let newState :=
    if negb (String.eqb (typeof newState) "object")
    then js_object (of_state initialState) else newState in
  do isCorrupt <-
    some_M (fun x => do b <- has_property x newState; ret (negb b))
           initialState_keys;
  let newState :=
    if isCorrupt then js_object (of_state initialState) else newState in
  match newState with
  | js_object o =>
      match to_state o with
      | Some next => store_setState (fun _ => ret (Replaced next))
      | None => ret tt
      end
  | _ => ret tt
  end.

(** *** Runs of the config object *)

Definition initial_world (registry : list Connector.t) : World :=
  {| store := initialState; connectors := registry; clients := ∅;
     allocated := 0; emitter_calls := [] |}.

(** What can happen to a config object: a connector emits an event, the
    application calls [setState] or [getClient], the registry changes. *)
Inductive Action :=
| act_change (data : ChangeData.t)
| act_connect (data : ConnectData.t)
| act_disconnect (data : DisconnectData.t)
| act_setState (value : JsValue)
| act_getClient (chainId : option Z)
| act_setConnectors (registry : list Connector.t).

(** The world an action leaves behind, whether it returns or throws. *)
Definition perform (a : Action) (w : World) : World :=
  match a with
  | act_change data => snd (change data w)
  | act_connect data => snd (connect data w)
  | act_disconnect data => snd (disconnect data w)
  | act_setState value => snd (setState value w)
  | act_getClient chainId => snd (getClient chainId w)
  | act_setConnectors registry =>
      {| store := store w; connectors := registry; clients := clients w;
         allocated := allocated w; emitter_calls := emitter_calls w |}
  end.

(** Worlds reached from the initial one by actions that [allowed]
    admits. *)
Inductive reachable (allowed : Action -> World -> Prop) : World -> Prop :=
| reachable_initial registry : reachable allowed (initial_world registry)
| reachable_step a w :
    reachable allowed w -> allowed a w -> reachable allowed (perform a w).

Definition any_action (a : Action) (w : World) : Prop := True.

(** Actions whose [setState] values, when they carry a [chainId], carry
    the id of a configured chain. *)
Definition configured_setState (a : Action) (w : World) : Prop :=
  match a with
  | act_setState value =>
      match candidate value (store w) with
      | js_object o =>
          match o_chainId o with
          | Some c => isChainConfigured (Some c) = true
          | None => True
          end
      | _ => True
      end
  | _ => True
  end.

Definition connector_event (a : Action) : bool :=
  match a with
  | act_change _ | act_connect _ | act_disconnect _ => true
  | _ => false
  end.

End CreateConfig.

(** ** The connector transport ([experimental_connector]) *)

Module ConnectorTransport.

(** How a promise ends, if it does. *)
Inductive Promise (A : Type) :=
| Fulfilled (a : A)
| Rejected (reason : string)
| RejectedTypeError
| Pending.
Arguments Fulfilled {A} a.
Arguments Rejected {A} reason.
Arguments RejectedTypeError {A}.
Arguments Pending {A}.

(** How a synchronous call ends. *)
Inductive Call (A : Type) :=
| Returns (a : A)
| Throws (reason : string).
Arguments Returns {A} a.
Arguments Throws {A} reason.

Record EthereumProvider := {
  provider_request : string -> list string -> Promise string
}.

(** [getProvider] may answer differently from one call to the next: its
    argument counts the calls made so far. A provider that resolves to
    [null] is [Fulfilled None]. *)
Record Connector := {
  getProvider : nat -> Call (Promise (option EthereumProvider))
}.

(** What calling a factory with [connectorConfig] does. *)
Definition CreateConnectorFn := Call Connector.

Record ConnectorTransportConfig := {
  key : option string;
  name : option string;
  retryCount : option nat;
  retryDelay : option nat
}.

(** The argument of [createTransport], [request] apart. *)
Record TransportConfig := {
  transport_key : string;
  transport_name : string;
  transport_retryCount : nat;
  transport_retryDelay : option nat;
  transport_type : string
}.

(** A callback of the [forEach] suspended at its [await]. *)
Record Suspended := {
  probed : Connector;
  awaited : Promise (option EthereumProvider)
}.

(** The variables the closures share. *)
Record Env := {
  successfulConnector : option Connector;
  suspended : list Suspended;
  console : list string;
  calls : nat
}.

(** One callback of the [forEach], up to its [await]. *)
Definition probe (createConnectorFn : CreateConnectorFn) (env : Env) : Env :=
  match createConnectorFn with
  | Throws error =>
      {| successfulConnector := successfulConnector env;
         suspended := suspended env;
         console := console env ++ ["Connector failed: " ++ error];
         calls := calls env |}
  | Returns connector =>
      match getProvider connector (calls env) with
      | Throws error =>
          {| successfulConnector := successfulConnector env;
             suspended := suspended env;
             console := console env ++ ["Connector failed: " ++ error];
             calls := S (calls env) |}
      | Returns promise =>
          {| successfulConnector := successfulConnector env;
             suspended := suspended env
                          ++ [{| probed := connector; awaited := promise |}];
             console := console env;
             calls := S (calls env) |}
      end
  end.

(** The rest of a callback, once the promise it awaits has settled. A
    promise that never settles leaves the callback suspended. *)
Definition continue (k : Suspended) (env : Env) : Env :=
  match awaited k with
  | Fulfilled provider =>
      {| successfulConnector :=
           match provider with
           | Some _ => Some (probed k)
           | None => successfulConnector env
           end;
         suspended := suspended env;
         console := console env;
         calls := calls env |}
  | Rejected error =>
      {| successfulConnector := successfulConnector env;
         suspended := suspended env;
         console := console env ++ ["Connector failed: " ++ error];
         calls := calls env |}
  | RejectedTypeError =>
      {| successfulConnector := successfulConnector env;
         suspended := suspended env;
         console := console env ++ ["Connector failed: TypeError"];
         calls := calls env |}
  | Pending => env
  end.

(** The event loop resumes the [i]-th suspended callback. *)
Definition resume (i : nat) (env : Env) : Env :=
  match suspended env !! i with
  | Some k =>
      match awaited k with
      | Pending => env
      | _ =>
          continue k
            {| successfulConnector := successfulConnector env;
               suspended := take i (suspended env) ++ drop (S i) (suspended env);
               console := console env;
               calls := calls env |}
      end
  | None => env
  end.

Definition initial_env : Env :=
  {| successfulConnector := None; suspended := []; console := [];
     calls := 0 |}.

(** The synchronous part of [experimental_connector]: the environment
    its closures are left with, and the transport's configuration for a
    given [defaultRetryCount]. *)
Definition experimental_connector
    (createConnectorFns : list CreateConnectorFn)
    (config : ConnectorTransportConfig)
  : Env * (nat -> TransportConfig) :=
  (fold_left (fun env fn => probe fn env) createConnectorFns initial_env,
   fun defaultRetryCount =>
     {| transport_key :=
          match key config with Some k => k | None => "connector" end;
        transport_name :=
          match name config with Some n => n | None => "Connector Provider" end;
        transport_retryCount :=
          match retryCount config with Some n => n | None => defaultRetryCount end;
        transport_retryDelay := retryDelay config;
        transport_type := "connector" |}).

(** The [request] handed to [createTransport]. *)
Definition request (method : string) (params : list string) (env : Env)
  : Promise string * Env :=
  match successfulConnector env with
  | None => (RejectedTypeError, env)
  | Some connector =>
      let env' :=
        {| successfulConnector := successfulConnector env;
           suspended := suspended env;
           console := console env;
           calls := S (calls env) |} in
      match getProvider connector (calls env) with
      | Throws error => (Rejected error, env')
      | Returns (Fulfilled (Some provider)) =>
          (provider_request provider method params, env')
      | Returns (Fulfilled None) => (RejectedTypeError, env')
      | Returns (Rejected error) => (Rejected error, env')
      | Returns RejectedTypeError => (RejectedTypeError, env')
      | Returns Pending => (Pending, env')
      end
  end.

(** Any number of suspended callbacks may have been resumed, in any
    order, by the time a request is made. *)
Definition after (schedule : list nat) (env : Env) : Env :=
  fold_left (fun env i => resume i env) schedule env.

(** A factory that can never lead to a working provider: it throws, or
    the connector it returns never resolves a provider. *)
Definition never_works (createConnectorFn : CreateConnectorFn) : Prop :=
  match createConnectorFn with
  | Throws _ => True
  | Returns connector =>
      forall n provider,
        getProvider connector n <> Returns (Fulfilled (Some provider))
  end.

(** No callback has found a provider, and none that is suspended is
    going to. *)
Definition unsuccessful (env : Env) : Prop :=
  successfulConnector env = None
  /\ Forall (fun k => forall provider, awaited k <> Fulfilled (Some provider))
       (suspended env).

End ConnectorTransport.

(** ** Invariants of the store and of the client cache *)

(** Runs in which the application never calls the public [setState]:
    the store is written by the connector events and by the subscription
    only. *)
Definition without_setState (a : Action) (w : World) : Prop :=
  match a with
  | act_setState _ => False
  | _ => True
  end.

(** Every connection is filed under the uid of its connector. *)
Definition keyed_by_connector (m : JsMap.t Connection.t) : Prop :=
  forall k c,
    JsMap.get k m = Some c -> Connector.uid (Connection.connector c) = k.

(** The shape the event handlers keep: no uid twice, every connection
    under its connector's uid, status [disconnected] and no current
    connection when there is no connection, status [connected] and a
    current uid that has a connection otherwise. *)
Definition consistent (s : State.t) : Prop :=
  JsMap.wf (State.connections s)
  /\ keyed_by_connector (State.connections s)
  /\ match State.connections s with
     | [] => State.status s = disconnected /\ State.current s = None
     | _ :: _ =>
         State.status s = connected
         /\ exists k c,
              State.current s = Some k
              /\ JsMap.get k (State.connections s) = Some c
     end.

(** Every cached client is the client of the chain it is cached for. *)
Definition cache_keyed (w : World) : Prop :=
  forall k client,
    clients w !! k = Some client -> Chain.id (Client.chain client) = k.

(** What holds of the connector the transport has chosen so far and of
    the probes still waiting: each comes from a factory of the list, and
    the promise a probe awaits is one its connector's [getProvider]
    returned. *)
Definition probed_from (fns : list ConnectorTransport.CreateConnectorFn)
    (env : ConnectorTransport.Env) : Prop :=
  (forall c,
      ConnectorTransport.successfulConnector env = Some c ->
      In (ConnectorTransport.Returns c) fns
      /\ exists n provider,
           ConnectorTransport.getProvider c n
           = ConnectorTransport.Returns
               (ConnectorTransport.Fulfilled (Some provider)))
  /\ Forall (fun k =>
               In (ConnectorTransport.Returns (ConnectorTransport.probed k)) fns
               /\ exists n,
                    ConnectorTransport.getProvider (ConnectorTransport.probed k) n
                    = ConnectorTransport.Returns (ConnectorTransport.awaited k))
       (ConnectorTransport.suspended env).

(** ** Sample configurations *)

Module Sample.

Definition mainnet : Chain.t := {| Chain.id := 1 |}.
Definition optimism : Chain.t := {| Chain.id := 10 |}.

(** Two chains, every other parameter left to its default. *)
Definition parameters : CreateConfigParameters :=
  {| param_chains := (mainnet, [optimism]);
     param_syncConnectedChain := None;
     param_client := false;
     param_rest := [] |}.

Definition injected : Connector.t :=
  {| Connector.ref := 0; Connector.uid := "injected";
     Connector.isPriorityProvider := false |}.
Definition walletConnect : Connector.t :=
  {| Connector.ref := 1; Connector.uid := "walletConnect";
     Connector.isPriorityProvider := false |}.
Definition safe : Connector.t :=
  {| Connector.ref := 2; Connector.uid := "safe";
     Connector.isPriorityProvider := true |}.

Definition registry : list Connector.t := [injected; walletConnect; safe].

Definition account : Address := "0xA0Cf798816D4b9b9866b5330EEa46a18382f251e".

Definition connected_to (connector : Connector.t) (chainId : Z)
  : ConnectData.t :=
  {| ConnectData.uid := Connector.uid connector;
     ConnectData.accounts := [account];
     ConnectData.chainId := chainId |}.

Definition connection (connector : Connector.t) (chainId : Z)
  : Connection.t :=
  {| Connection.accounts := [account];
     Connection.chainId := chainId;
     Connection.connector := connector |}.

Definition fresh : World := initial_world parameters registry.

(** The three connectors connect one after the other. *)
Definition three_connected : World :=
  perform parameters (act_connect (connected_to safe 1))
    (perform parameters (act_connect (connected_to walletConnect 1))
       (perform parameters (act_connect (connected_to injected 1)) fresh)).

(** The priority connector connects alone. *)
Definition safe_connected : World :=
  perform parameters (act_connect (connected_to safe 1)) fresh.

(** A state as rehydration leaves it: the persisted connections and
    current uid, with the status of the initial state. *)
Definition rehydrated_state : State.t :=
  {| State.chainId := 1;
     State.connections := [("walletConnect", connection walletConnect 1)];
     State.current := Some "walletConnect";
     State.status := disconnected |}.

Definition rehydrated : World :=
  perform parameters (act_setState (js_object (of_state rehydrated_state)))
    fresh.

(** A complete state whose [chainId] is the id of no configured chain. *)
Definition foreign_chain_state : State.t :=
  {| State.chainId := 999;
     State.connections := JsMap.empty;
     State.current := None;
     State.status := disconnected |}.

(** A change event for a connector that has no connection. *)
Definition stray_change : ChangeData.t :=
  {| ChangeData.uid := "injected";
     ChangeData.accounts := Some [account];
     ChangeData.chainId := Some 10 |}.

(** A client is cached for a chain that is not the store's. *)
Definition optimism_cached : World :=
  perform parameters (act_getClient (Some 10)) fresh.

(** Factories of the connector transport: one throws, one returns a
    connector whose provider resolves to [null]. *)
Definition throwing_factory : ConnectorTransport.CreateConnectorFn :=
  ConnectorTransport.Throws "Error: no wallet".

Definition null_provider_factory : ConnectorTransport.CreateConnectorFn :=
  ConnectorTransport.Returns
    {| ConnectorTransport.getProvider := fun _ =>
         ConnectorTransport.Returns (ConnectorTransport.Fulfilled None) |}.

Definition default_config : ConnectorTransport.ConnectorTransportConfig :=
  {| ConnectorTransport.key := None; ConnectorTransport.name := None;
     ConnectorTransport.retryCount := None;
     ConnectorTransport.retryDelay := None |}.

End Sample.

(** ** More sample configurations *)

Module MoreSample.
Import Sample.

(** A connection attempt is under way: the application has set the
    status to [connecting]. *)
Definition connecting_state : State.t :=
  {| State.chainId := 1;
     State.connections := JsMap.empty;
     State.current := None;
     State.status := connecting |}.

Definition connecting_world : World :=
  perform parameters (act_setState (js_object (of_state connecting_state)))
    fresh.

(** The sample parameters with [syncConnectedChain: false]. *)
Definition unsynced : CreateConfigParameters :=
  {| param_chains := (mainnet, [optimism]);
     param_syncConnectedChain := Some false;
     param_client := false;
     param_rest := [] |}.

(** The client of mainnet is built and cached, then the priority
    connector connects. *)
Definition cached_then_priority : World :=
  perform parameters (act_connect (connected_to safe 1))
    (perform parameters (act_getClient (Some 1)) fresh).

(** A connector whose provider resolves and answers every request. *)
Definition answering_provider : ConnectorTransport.EthereumProvider :=
  {| ConnectorTransport.provider_request := fun _ _ =>
       ConnectorTransport.Fulfilled "0x1" |}.

Definition working_connector : ConnectorTransport.Connector :=
  {| ConnectorTransport.getProvider := fun _ =>
       ConnectorTransport.Returns
         (ConnectorTransport.Fulfilled (Some answering_provider)) |}.

Definition working_factory : ConnectorTransport.CreateConnectorFn :=
  ConnectorTransport.Returns working_connector.

(** Three factories, the second of which works. *)
Definition second_works : list ConnectorTransport.CreateConnectorFn :=
  [throwing_factory; working_factory; null_provider_factory].

Definition second_works_env : ConnectorTransport.Env :=
  fst (ConnectorTransport.experimental_connector second_works default_config).

End MoreSample.

(** * Properties *)

(** ** Facts about [JsMap] *)

Module JsMapFacts.
Import JsMap.

Section Facts.
Context {V : Type}.
Implicit Types (m : JsMap.t V) (k : string) (v : V).

Lemma get_set_eq k v m : get k (set k v m) = Some v.
Proof.
  induction m as [|[k' v'] m IH]; simpl.
  - now rewrite String.eqb_refl.
  - destruct (String.eqb k' k) eqn:E; simpl.
    + now rewrite String.eqb_refl.
    + now rewrite E.
Qed.

Lemma get_set_ne k k' v m : k <> k' -> get k' (set k v m) = get k' m.
Proof.
  intros Hne. induction m as [|[k0 v0] m IH]; simpl.
  - apply String.eqb_neq in Hne. now rewrite Hne.
  - destruct (String.eqb k0 k) eqn:E; simpl.
    + apply String.eqb_eq in E. subst k0.
      apply String.eqb_neq in Hne. now rewrite Hne.
    + now rewrite IH.
Qed.

Lemma get_delete_eq k m : get k (delete k m) = None.
Proof.
  induction m as [|[k' v'] m IH]; simpl; [reflexivity|].
  destruct (String.eqb k' k) eqn:E; simpl; [assumption|].
  now rewrite E.
Qed.

Lemma get_delete_ne k k' m : k <> k' -> get k' (delete k m) = get k' m.
Proof.
  intros Hne. induction m as [|[k0 v0] m IH]; simpl; [reflexivity|].
  destruct (String.eqb k0 k) eqn:E; simpl.
  - apply String.eqb_eq in E. subst k0.
    apply String.eqb_neq in Hne. now rewrite Hne.
  - now rewrite IH.
Qed.

Lemma get_None_not_key k m : get k m = None <-> k ∉ keys m.
Proof.
  induction m as [|[k' v'] m IH]; simpl.
  - split; [intros _; apply not_elem_of_nil | reflexivity].
  - rewrite not_elem_of_cons. destruct (String.eqb k' k) eqn:E.
    + apply String.eqb_eq in E. split; [discriminate | intros []; congruence].
    + apply String.eqb_neq in E. rewrite IH. split; [split|]; intuition congruence.
Qed.

Lemma delete_absent k m : get k m = None -> delete k m = m.
Proof.
  induction m as [|[k' v'] m IH]; simpl; [reflexivity|].
  destruct (String.eqb k' k); [discriminate|].
  intros H. now rewrite IH.
Qed.

(** On a map, [delete] takes out one entry and keeps the others in
    their order. *)
Lemma delete_present k v m :
  wf m -> get k m = Some v ->
  exists before behind,
    m = (before ++ (k, v) :: behind)%list
    /\ delete k m = (before ++ behind)%list.
Proof.
  unfold wf. induction m as [|[k' v'] m IH]; simpl; [discriminate|].
  intros Hwf Hget. apply NoDup_cons in Hwf as [Hnotin Hwf].
  destruct (String.eqb k' k) eqn:E.
  - apply String.eqb_eq in E. subst k'. injection Hget as ->.
    exists [], m. split; [reflexivity|]. simpl.
    apply delete_absent. now apply get_None_not_key.
  - destruct (IH Hwf Hget) as (before & behind & -> & Hdel).
    exists ((k', v') :: before), behind. simpl. now rewrite Hdel.
Qed.

Lemma keys_delete_incl k m x : x ∈ keys (delete k m) -> x ∈ keys m.
Proof.
  induction m as [|[k' v'] m IH]; simpl; [trivial|].
  destruct (String.eqb k' k); simpl; rewrite ?elem_of_cons; tauto.
Qed.

Lemma wf_delete k m : wf m -> wf (delete k m).
Proof.
  unfold wf. induction m as [|[k' v'] m IH]; simpl; [trivial|].
  intros Hwf. apply NoDup_cons in Hwf as [Hnotin Hwf].
  destruct (String.eqb k' k); [auto|]. simpl.
  apply NoDup_cons. split; [|auto].
  intros Hin. apply Hnotin. eapply keys_delete_incl, Hin.
Qed.

Lemma keys_set k v m :
  keys (set k v m) = match get k m with
                     | Some _ => keys m
                     | None => (keys m ++ [k])%list
                     end.
Proof.
  induction m as [|[k' v'] m IH]; simpl; [reflexivity|].
  destruct (String.eqb k' k) eqn:E; simpl.
  - apply String.eqb_eq in E. now subst.
  - rewrite IH. now destruct (get k m).
Qed.

Lemma wf_set k v m : wf m -> wf (set k v m).
Proof.
  unfold wf. intros Hwf. rewrite keys_set.
  destruct (get k m) eqn:E; [assumption|].
  apply get_None_not_key in E.
  apply NoDup_app. repeat split; auto.
  - intros x Hx ->%list_elem_of_singleton. contradiction.
  - apply NoDup_singleton.
Qed.

(** A map with two entries or more keeps one when a key is deleted. *)
Lemma delete_leaves_one k m :
  wf m -> (2 <= size m)%nat -> delete k m <> [].
Proof.
  intros Hwf Hsize Hempty.
  destruct (get k m) as [v|] eqn:E.
  - destruct (delete_present k v m Hwf E) as (before & behind & -> & Hdel).
    rewrite Hempty in Hdel. symmetry in Hdel.
    apply app_eq_nil in Hdel as [-> ->]. simpl in Hsize. lia.
  - rewrite (delete_absent _ _ E) in Hempty. subst m. simpl in Hsize. lia.
Qed.

End Facts.
End JsMapFacts.

(** ** The store *)

Ltac run_M :=
  unfold change, connect, disconnect, store_setState, change_update,
    connect_update, disconnect_update, get_property, emit_call, bind, ret,
    throw, getState, getConnectors, getClients, with_store in *;
  simpl in *.

Section StoreFacts.

Variable parameters : CreateConfigParameters.

Lemma commit_connections prev next :
  State.connections (commit parameters prev next) = State.connections next.
Proof.
  unfold commit, sync_listener, set_chainId.
  repeat (case_match; simpl); reflexivity.
Qed.

Lemma commit_current prev next :
  State.current (commit parameters prev next) = State.current next.
Proof.
  unfold commit, sync_listener, set_chainId.
  repeat (case_match; simpl); reflexivity.
Qed.

Lemma commit_status prev next :
  State.status (commit parameters prev next) = State.status next.
Proof.
  unfold commit, sync_listener, set_chainId.
  repeat (case_match; simpl); reflexivity.
Qed.

Lemma selected_chainId_ext s s' :
  State.connections s = State.connections s' ->
  State.current s = State.current s' ->
  selected_chainId s = selected_chainId s'.
Proof. unfold selected_chainId. now intros -> ->. Qed.

Lemma commit_selected prev next :
  selected_chainId (commit parameters prev next) = selected_chainId next.
Proof.
  apply selected_chainId_ext;
    [apply commit_connections | apply commit_current].
Qed.

(** The subscription writes nothing but the chain its selector reads,
    and only when that chain is configured. *)
Lemma commit_chainId prev next :
  State.chainId (commit parameters prev next) = State.chainId next
  \/ (syncConnectedChain parameters = true
      /\ selected_chainId next <> selected_chainId prev
      /\ selected_chainId next
         = Some (State.chainId (commit parameters prev next))
      /\ isChainConfigured parameters
           (Some (State.chainId (commit parameters prev next))) = true).
Proof.
  unfold commit, sync_listener.
  destruct (syncConnectedChain parameters) eqn:Hsync; [|now left].
  destruct (decide _) as [|Hne]; [now left|].
  destruct (isChainConfigured parameters (selected_chainId next)) eqn:Hconf;
    [|now left].
  destruct (selected_chainId next) as [c|] eqn:Hsel; [|discriminate].
  right. simpl. repeat split; auto.
Qed.

Lemma commit_unconfigured prev next :
  isChainConfigured parameters (selected_chainId next) = false ->
  commit parameters prev next = next.
Proof.
  intros H. unfold commit, sync_listener. rewrite H.
  now repeat case_match.
Qed.

Lemma commit_same x : commit parameters x x = x.
Proof.
  unfold commit. destruct (syncConnectedChain parameters); [|reflexivity].
  destruct (decide _); [reflexivity | contradiction].
Qed.

(** X21. The write of the subscription's listener goes through
    [setState] again, and so back to the listener, but never a second
    time: whatever the states, the notification is over after two rounds
    at most, and the store then holds what [commit] computes. *)
Lemma notify_commit n prev next :
  notify parameters (S (S n)) (selected_chainId prev) next
  = Some (commit parameters prev next).
Proof.
  unfold commit, sync_listener. simpl.
  destruct (syncConnectedChain parameters); [|reflexivity].
  destruct (decide _) as [|Hne]; [reflexivity|].
  destruct (isChainConfigured parameters (selected_chainId next)); [|reflexivity].
  rewrite decide_True; [reflexivity|].
  now apply selected_chainId_ext.
Qed.

End StoreFacts.

(** ** The event handlers *)

Section Handlers.

Variable parameters : CreateConfigParameters.

(** C2 (the code when the connection is missing). A change event whose
    uid has no entry in [connections] does not go through: the updater
    reads a field of the missing connection, the handler ends with a
    [TypeError] instead of returning, and the store and everything else
    stay as they were. *)
Theorem change_without_connection (data : ChangeData.t) (w : World) :
  JsMap.get (ChangeData.uid data) (State.connections (store w)) = None ->
  change parameters data w = (Throw TypeError, w).
Proof.
  intros Hget. run_M. rewrite Hget.
  destruct (ChangeData.accounts data), (ChangeData.chainId data); reflexivity.
Qed.

(** The state the change handler's updater returns for a uid that has a
    connection differs from the state it was given in the entry for
    that uid only: [chainId], [current] and [status] are the same, every
    other entry is the same, no entry is added or removed, and the entry
    for the uid keeps its connector. *)
Theorem change_frame (data : ChangeData.t) (w : World)
    (connection : Connection.t) :
  JsMap.get (ChangeData.uid data) (State.connections (store w))
    = Some connection ->
  exists next,
    change_update data (store w) w = (Normal (Replaced next), w)
    /\ change parameters data w
       = (Normal tt, with_store (commit parameters (store w) next) w)
    /\ State.chainId next = State.chainId (store w)
    /\ State.current next = State.current (store w)
    /\ State.status next = State.status (store w)
    /\ (forall k, k <> ChangeData.uid data ->
          JsMap.get k (State.connections next)
          = JsMap.get k (State.connections (store w)))
    /\ JsMap.keys (State.connections next)
       = JsMap.keys (State.connections (store w))
    /\ (exists entry,
          JsMap.get (ChangeData.uid data) (State.connections next) = Some entry
          /\ Connection.connector entry = Connection.connector connection).
Proof.
  intros Hget. run_M. rewrite Hget.
  exists
    {| State.chainId := State.chainId (store w);
       State.connections :=
         JsMap.set (ChangeData.uid data)
           {| Connection.accounts :=
                match ChangeData.accounts data with
                | Some a => a
                | None => Connection.accounts connection
                end;
              Connection.chainId :=
                match ChangeData.chainId data with
                | Some c => c
                | None => Connection.chainId connection
                end;
              Connection.connector := Connection.connector connection |}
           (State.connections (store w));
       State.current := State.current (store w);
       State.status := State.status (store w) |}.
  split; [|split].
  - destruct (ChangeData.accounts data), (ChangeData.chainId data);
      simpl; reflexivity.
  - destruct (ChangeData.accounts data), (ChangeData.chainId data);
      simpl; reflexivity.
  - simpl. repeat split.
    + intros k Hk. apply JsMapFacts.get_set_ne. congruence.
    + rewrite JsMapFacts.keys_set, Hget. reflexivity.
    + eexists. split; [apply JsMapFacts.get_set_eq | reflexivity].
Qed.

Lemma selected_after_change (x : State.t) (uid : string)
    (connection entry : Connection.t) :
  JsMap.get uid (State.connections x) = Some connection ->
  let next :=
    {| State.chainId := State.chainId x;
       State.connections := JsMap.set uid entry (State.connections x);
       State.current := State.current x;
       State.status := State.status x |} in
  (State.current x = Some uid -> uid <> "" ->
   selected_chainId x = Some (Connection.chainId connection)
   /\ selected_chainId next = Some (Connection.chainId entry))
  /\ (State.current x <> Some uid \/ uid = "" ->
      selected_chainId next = selected_chainId x).
Proof.
  intros Hget next. unfold selected_chainId. simpl. split.
  - intros -> Hne. apply String.eqb_neq in Hne. rewrite Hne, Hget.
    now rewrite JsMapFacts.get_set_eq.
  - intros Hother. destruct (State.current x) as [k|]; [|reflexivity].
    destruct (String.eqb k "") eqn:Hk; [reflexivity|].
    rewrite JsMapFacts.get_set_ne; [reflexivity|].
    intros <-. destruct Hother as [Hcur | ->]; [congruence|].
    discriminate.
Qed.

(** C10 (as the code has it). After a change event whose uid has a
    connection, the store differs from what it was in the entry for that
    uid, which takes the event's accounts and chain id where it gives
    them and keeps its connector, and possibly in [chainId]: [current]
    and [status] are unchanged, every other entry is unchanged, no entry
    is added or removed. [chainId] is unchanged too, except when
    [syncConnectedChain] is enabled, the uid is the current one and not
    the empty string, and the event gives a chain id that is not the one
    the connection had and is configured: the subscription then sets
    [chainId] to that chain id. *)
Theorem change_frame_store (data : ChangeData.t) (w : World)
    (connection : Connection.t) :
  JsMap.get (ChangeData.uid data) (State.connections (store w))
    = Some connection ->
  let w' := snd (change parameters data w) in
  let entry :=
    {| Connection.accounts :=
         match ChangeData.accounts data with
         | Some a => a
         | None => Connection.accounts connection
         end;
       Connection.chainId :=
         match ChangeData.chainId data with
         | Some c => c
         | None => Connection.chainId connection
         end;
       Connection.connector := Connection.connector connection |} in
  fst (change parameters data w) = Normal tt
  /\ State.current (store w') = State.current (store w)
  /\ State.status (store w') = State.status (store w)
  /\ JsMap.get (ChangeData.uid data) (State.connections (store w'))
     = Some entry
  /\ (forall k, k <> ChangeData.uid data ->
        JsMap.get k (State.connections (store w'))
        = JsMap.get k (State.connections (store w)))
  /\ JsMap.keys (State.connections (store w'))
     = JsMap.keys (State.connections (store w))
  /\ (forall c,
        syncConnectedChain parameters = true ->
        State.current (store w) = Some (ChangeData.uid data) ->
        ChangeData.uid data <> "" ->
        ChangeData.chainId data = Some c ->
        c <> Connection.chainId connection ->
        isChainConfigured parameters (Some c) = true ->
        State.chainId (store w') = c)
  /\ (syncConnectedChain parameters = false
      \/ State.current (store w) <> Some (ChangeData.uid data)
      \/ ChangeData.uid data = ""
      \/ ChangeData.chainId data = None
      \/ ChangeData.chainId data = Some (Connection.chainId connection)
      \/ isChainConfigured parameters (ChangeData.chainId data) = false ->
      State.chainId (store w') = State.chainId (store w)).
Proof.
  intros Hget w' entry.
  pose proof (selected_after_change (store w) (ChangeData.uid data) connection
                entry Hget) as Hselected.
  assert (Hrun : change parameters data w
                 = (Normal tt,
                    with_store
                      (commit parameters (store w)
                         {| State.chainId := State.chainId (store w);
                            State.connections :=
                              JsMap.set (ChangeData.uid data) entry
                                (State.connections (store w));
                            State.current := State.current (store w);
                            State.status := State.status (store w) |}) w)).
  { subst entry. run_M. rewrite Hget.
    destruct (ChangeData.accounts data), (ChangeData.chainId data); reflexivity. }
  cbv zeta in Hselected. destruct Hselected as [Hcurrent Hother].
  subst w'. rewrite Hrun. cbn [fst snd store with_store].
  rewrite commit_current, commit_status, commit_connections.
  cbn [State.current State.status State.connections].
  split; [reflexivity|]. split; [reflexivity|]. split; [reflexivity|].
  split; [apply JsMapFacts.get_set_eq|].
  split; [intros k Hk; apply JsMapFacts.get_set_ne; congruence|].
  split; [now rewrite JsMapFacts.keys_set, Hget|].
  split.
  - intros c Hsync Hcur Huid Hc Hne Hconf.
    destruct (Hcurrent Hcur Huid) as [Hprev Hnext].
    unfold commit, sync_listener. rewrite Hsync, Hprev, Hnext.
    subst entry. cbn [Connection.chainId]. rewrite Hc.
    rewrite decide_False by congruence. now rewrite Hconf.
  - intros Hcases. unfold commit, sync_listener.
    destruct (syncConnectedChain parameters) eqn:Hsync; [|reflexivity].
    destruct (decide _) as [|Hslice]; [reflexivity|].
    match goal with
    | |- context [if isChainConfigured parameters ?s then _ else _] =>
        destruct (isChainConfigured parameters s) eqn:Hconf; [|reflexivity]
    end.
    exfalso.
    destruct (decide (State.current (store w) = Some (ChangeData.uid data)))
      as [Hcur|Hcur]; [|apply Hslice; symmetry; apply Hother; now left].
    destruct (decide (ChangeData.uid data = "")) as [Huid|Huid];
      [apply Hslice; symmetry; apply Hother; now right|].
    destruct (Hcurrent Hcur Huid) as [Hprev Hnext].
    rewrite Hprev, Hnext in Hslice. rewrite Hnext in Hconf.
    subst entry. cbn [Connection.chainId] in Hslice, Hconf.
    destruct (ChangeData.chainId data) as [c|];
      destruct Hcases as [H|[H|[H|[H|[H|H]]]]]; congruence.
Qed.

(** What the store holds after a change event that goes through: the
    state the updater returned, except that the subscription may have
    set [chainId] to the chain the current connection now reports, when
    that chain is configured. *)
Lemma change_store (data : ChangeData.t) (w : World)
    (connection : Connection.t) :
  JsMap.get (ChangeData.uid data) (State.connections (store w))
    = Some connection ->
  let w' := snd (change parameters data w) in
  State.current (store w') = State.current (store w)
  /\ State.status (store w') = State.status (store w)
  /\ (State.chainId (store w') = State.chainId (store w)
      \/ (syncConnectedChain parameters = true
          /\ selected_chainId (store w') = Some (State.chainId (store w'))
          /\ isChainConfigured parameters
               (Some (State.chainId (store w'))) = true)).
Proof.
  intros Hget w'. subst w'. run_M. rewrite Hget.
  destruct (ChangeData.accounts data), (ChangeData.chainId data); simpl;
    rewrite commit_current, commit_status, commit_selected; simpl;
    (do 2 (split; [reflexivity|]));
    match goal with
    | |- context [commit parameters ?prev ?next] =>
        destruct (commit_chainId parameters prev next)
          as [-> | (Hsync & _ & Hsel & Hconf)]; auto
    end.
Qed.

(** C7 (as the code has it). From a state with status
    [disconnected], a connect event whose uid is that of a registered
    connector leaves a state with status [connected], [current] equal
    to the uid, and [connections] equal to the previous connections
    with the entry for the uid inserted or overwritten, the entry being
    made of the event's accounts and chain id and of the registry's
    connector: exactly that entry when the previous connections were
    empty. When no registered connector has the uid, nothing changes. *)
Theorem connect_from_disconnected (data : ConnectData.t) (w : World) :
  State.status (store w) = disconnected ->
  let registered :=
    find (fun c => String.eqb (Connector.uid c) (ConnectData.uid data))
         (connectors w) in
  let w' := snd (connect parameters data w) in
  (forall connector,
      registered = Some connector ->
      let entry :=
        {| Connection.accounts := ConnectData.accounts data;
           Connection.chainId := ConnectData.chainId data;
           Connection.connector := connector |} in
      fst (connect parameters data w) = Normal tt
      /\ State.status (store w') = connected
      /\ State.current (store w') = Some (ConnectData.uid data)
      /\ State.connections (store w')
         = JsMap.set (ConnectData.uid data) entry
             (State.connections (store w))
      /\ (State.connections (store w) = [] ->
          State.connections (store w') = [(ConnectData.uid data, entry)]))
  /\ (registered = None -> connect parameters data w = (Normal tt, w)).
Proof.
  intros Hstatus registered w'. subst registered w'. run_M.
  rewrite Hstatus. split.
  - intros connector Hfind. rewrite Hfind. simpl.
    rewrite commit_status, commit_current, commit_connections. simpl.
    repeat split. now intros ->.
  - now intros ->.
Qed.

(** C3 (as the code has it). In a state with status [connected] and two
    connections or more, a disconnect event for a uid other than
    [current] removes the entry of that uid and no other, leaves
    [status] as it was, and sets [current] to the uid of the connector
    of the earliest connection that remains. *)
Theorem disconnect_other (data : DisconnectData.t) (w : World) :
  State.status (store w) = connected ->
  JsMap.wf (State.connections (store w)) ->
  (2 <= JsMap.size (State.connections (store w)))%nat ->
  State.current (store w) <> Some (DisconnectData.uid data) ->
  let w' := snd (disconnect parameters data w) in
  let remaining :=
    JsMap.delete (DisconnectData.uid data) (State.connections (store w)) in
  fst (disconnect parameters data w) = Normal tt
  /\ State.connections (store w') = remaining
  /\ (forall k, k <> DisconnectData.uid data ->
        JsMap.get k (State.connections (store w'))
        = JsMap.get k (State.connections (store w)))
  /\ JsMap.get (DisconnectData.uid data) (State.connections (store w')) = None
  /\ State.status (store w') = connected
  /\ (exists earliest,
        JsMap.first_value remaining = Some earliest
        /\ State.current (store w')
           = Some (Connector.uid (Connection.connector earliest))).
Proof.
  intros Hstatus Hwf Hsize _ w' remaining.
  pose proof (JsMapFacts.delete_leaves_one (DisconnectData.uid data) _ Hwf Hsize)
    as Hleft.
  fold remaining in Hleft.
  assert (Hrun : fst (disconnect parameters data w) = Normal tt
                 /\ State.connections (store w') = remaining
                 /\ State.status (store w') = connected
                 /\ exists earliest,
                      JsMap.first_value remaining = Some earliest
                      /\ State.current (store w')
                         = Some (Connector.uid (Connection.connector earliest))).
  { subst w'. run_M. fold remaining.
    destruct remaining as [|[k c] rest] eqn:Hrem; [contradiction|].
    destruct (JsMap.get _ _); simpl;
      rewrite commit_status, commit_current, commit_connections; simpl;
      eauto 10. }
  destruct Hrun as (Hfst & Hconn & Hst & Hcur).
  repeat split; try assumption.
  - intros k Hk. rewrite Hconn. apply JsMapFacts.get_delete_ne. congruence.
  - rewrite Hconn. apply JsMapFacts.get_delete_eq.
Qed.


End Handlers.

(** ** The client cache *)

Section ClientCache.

Variable parameters : CreateConfigParameters.

Lemma find_chain_unconfigured (X : Z) :
  isChainConfigured parameters (Some X) = false ->
  find (fun x => Z.eqb (Chain.id x) X) (chains parameters) = None.
Proof.
  unfold isChainConfigured. generalize (chains parameters).
  induction l as [|chain l IH]; simpl; [reflexivity|].
  destruct (Z.eqb (Chain.id chain) X); [discriminate | exact IH].
Qed.

(** C9 (as the code has it). For a chain id that is not configured,
    [getClient] returns the client cached for the store's current
    [chainId] when there is one, and fails with
    [ChainNotConfiguredError] when there is none, whatever is cached
    for other chains; it changes nothing either way. *)
Theorem getClient_unconfigured (X : Z) (w : World) :
  isChainConfigured parameters (Some X) = false ->
  getClient parameters (Some X) w
  = match clients w !! State.chainId (store w) with
    | Some client => (Normal client, w)
    | None => (Throw ChainNotConfiguredError, w)
    end.
Proof.
  intros Hconf. unfold getClient, bind, getState, getClients.
  cbv beta iota zeta.
  rewrite (find_chain_unconfigured X Hconf).
  destruct (clients w !! State.chainId (store w)); reflexivity.
Qed.

(** [getClient] never writes to the store. *)
Lemma getClient_store (chainId : option Z) (w : World) :
  store (snd (getClient parameters chainId w)) = store w.
Proof.
  unfold getClient, bind, getState, getClients, getConnectors, createClient,
    clients_set, ret, throw.
  repeat (case_match; simplify_eq/=); reflexivity.
Qed.

(** The client built for a priority connector is returned without being
    stored: the cache and everything but the allocation count are as
    before. *)
Lemma getClient_priority (X : Z) (w : World) (chain : Chain.t)
    (connector : Connector.t) :
  find (fun x => Z.eqb (Chain.id x) X) (chains parameters) = Some chain ->
  clients w !! X = None ->
  priority_connector (State.current (store w)) (connectors w)
    = Some connector ->
  getClient parameters (Some X) w
  = (Normal {| Client.ref := allocated w; Client.chain := chain;
               Client.batch := multicall; Client.properties := [];
               Client.transport := custom_connector connector |},
     {| store := store w; connectors := connectors w; clients := clients w;
        allocated := S (allocated w); emitter_calls := emitter_calls w |}).
Proof.
  intros Hchain Hmiss Hprio.
  unfold getClient, bind, getState, getClients, getConnectors, createClient.
  cbv beta iota zeta. rewrite Hchain, Hmiss.
  replace (clients w !! State.chainId (store w))
    with (clients w !! State.chainId (store w)) by reflexivity.
  destruct (clients w !! State.chainId (store w));
    cbv beta iota zeta; rewrite Hprio; reflexivity.
Qed.

(** X22. Without a priority connector, the client of a configured chain
    is built once: a second call returns the same object and writes
    nothing. *)
Lemma getClient_memoized (X : Z) (w : World) (chain : Chain.t) :
  find (fun x => Z.eqb (Chain.id x) X) (chains parameters) = Some chain ->
  priority_connector (State.current (store w)) (connectors w) = None ->
  exists client w1,
    getClient parameters (Some X) w = (Normal client, w1)
    /\ getClient parameters (Some X) w1 = (Normal client, w1).
Proof.
  intros Hchain Hprio.
  unfold getClient, bind, getState, getClients, getConnectors, createClient,
    clients_set, ret. cbv beta iota zeta. rewrite Hchain.
  destruct (clients w !! X) as [client|] eqn:Hcache.
  - exists client, w. rewrite Hcache.
    destruct (clients w !! State.chainId (store w)); auto.
  - destruct (clients w !! State.chainId (store w));
      cbv beta iota zeta; rewrite Hprio;
      destruct (param_client parameters);
      do 2 eexists; (split; [reflexivity|]); cbn [store clients];
      rewrite lookup_insert_eq; now case_match.
Qed.

End ClientCache.

(** ** The public [setState] *)

Section SetState.

Variable parameters : CreateConfigParameters.

Lemma commit_initialState (prev : State.t) :
  commit parameters prev (initialState parameters) = initialState parameters.
Proof. now apply commit_unconfigured. Qed.

(** [setState], case by case on the value it examines. *)
Lemma setState_cases (value : JsValue) (w : World) :
  setState parameters value w
  = match candidate value (store w) with
    | js_null => (Throw TypeError, w)
    | js_object o =>
        match to_state o with
        | Some next =>
            (Normal tt, with_store (commit parameters (store w) next) w)
        | None => (Normal tt, with_store (initialState parameters) w)
        end
    | _ => (Normal tt, with_store (initialState parameters) w)
    end.
Proof.
  unfold setState, bind, getState. simpl.
  destruct (candidate value (store w)) as [| | | | | |o];
    try reflexivity;
    try (unfold store_setState, bind, getState, ret; simpl;
         now rewrite commit_initialState).
  destruct o as [[c|] [m|] [cur|] [st|]];
    try reflexivity;
    unfold store_setState, bind, getState, ret; simpl;
    now rewrite commit_initialState.
Qed.

(** X23. What [setState] does with a value that is not an object,
    [null] apart, or with an object that lacks a key of the initial
    state: the store is reset to the initial state, and nothing is
    thrown. *)
Lemma setState_resets (value : JsValue) (w : World) :
  let v := candidate value (store w) in
  v <> js_null ->
  typeof v <> "object"
  \/ (exists o, v = js_object o
                /\ exists key, In key initialState_keys
                               /\ own_key key o = false) ->
  setState parameters value w
  = (Normal tt, with_store (initialState parameters) w).
Proof.
  intros v Hnull Hbad. unfold setState, bind, getState. simpl. fold v.
  destruct Hbad as [Htype | (o & Hv & Hkey)].
  - destruct v; try congruence; try (now exfalso; apply Htype);
      unfold store_setState, bind, getState, ret; simpl;
      now rewrite commit_initialState.
  - rewrite Hv. destruct Hkey as (key & Hin & Hmiss).
    destruct o as [[c|] [m|] [cur|] [st|]];
      try (unfold store_setState, bind, getState, ret; simpl;
           now rewrite commit_initialState).
    exfalso. simpl in Hin.
    destruct Hin as [<-|[<-|[<-|[<-|[]]]]]; discriminate Hmiss.
Qed.

(** A complete object is committed as it is. *)
Lemma setState_commits (s : State.t) (w : World) :
  setState parameters (js_object (of_state s)) w
  = (Normal tt, with_store (commit parameters (store w) s) w).
Proof. destruct s. reflexivity. Qed.

(** C6 (the code at [null]). [typeof null] is ["object"], so [null]
    passes the first test, and the test for the keys of the initial
    state then applies [in] to it: [setState(null)] ends with a
    [TypeError], from every state, and the store is not reset. *)
Theorem setState_null (w : World) :
  setState parameters js_null w = (Throw TypeError, w).
Proof. reflexivity. Qed.

Lemma setState_updater_null (w : World) :
  setState parameters (js_function (fun _ => js_null)) w = (Throw TypeError, w).
Proof. reflexivity. Qed.

End SetState.

(** ** The chain id of the store *)

Section ChainId.

Variable parameters : CreateConfigParameters.

Lemma initialState_configured :
  isChainConfigured parameters (Some (State.chainId (initialState parameters)))
  = true.
Proof.
  unfold isChainConfigured, chains, initialState. simpl.
  now rewrite Z.eqb_refl.
Qed.

Lemma commit_configured (prev next : State.t) :
  isChainConfigured parameters (Some (State.chainId next)) = true ->
  isChainConfigured parameters
    (Some (State.chainId (commit parameters prev next))) = true.
Proof.
  intros Hnext.
  destruct (commit_chainId parameters prev next) as [-> | (_ & _ & _ & H)];
    assumption.
Qed.

(** A connector event leaves the store alone or commits a state that has
    the [chainId] the store had. *)
Lemma event_store (a : Action) (w : World) :
  connector_event a = true ->
  store (perform parameters a w) = store w
  \/ exists next,
       store (perform parameters a w) = commit parameters (store w) next
       /\ State.chainId next = State.chainId (store w).
Proof.
  destruct a as [data|data|data| | |]; try discriminate; intros _;
    unfold perform; run_M.
  - destruct (JsMap.get _ _);
      destruct (ChangeData.accounts data), (ChangeData.chainId data);
      simpl; eauto.
  - destruct (State.status (store w)); simpl; auto;
      destruct (find _ _); simpl; eauto.
  - destruct (JsMap.get _ _); simpl;
      destruct (JsMap.delete _ _) as [|[k c] others]; simpl; eauto.
Qed.

(** [setState] leaves the store alone, resets it, or commits the state
    it was given. *)
Lemma setState_store (value : JsValue) (w : World) :
  store (snd (setState parameters value w)) = store w
  \/ store (snd (setState parameters value w)) = initialState parameters
  \/ exists o next,
       candidate value (store w) = js_object o
       /\ to_state o = Some next
       /\ store (snd (setState parameters value w))
          = commit parameters (store w) next.
Proof.
  unfold setState, bind, getState. simpl.
  destruct (candidate value (store w)) as [| | | | | |o] eqn:Hv;
    try (right; left; unfold store_setState, bind, getState, ret; simpl;
         now rewrite commit_initialState);
    try (now left).
  destruct o as [[c|] [m|] [cur|] [st|]];
    try (right; left; unfold store_setState, bind, getState, ret; simpl;
         now rewrite commit_initialState).
  right; right. do 2 eexists. repeat split.
Qed.

Lemma perform_configured (a : Action) (w : World) :
  configured_setState parameters a w ->
  isChainConfigured parameters (Some (State.chainId (store w))) = true ->
  isChainConfigured parameters
    (Some (State.chainId (store (perform parameters a w)))) = true.
Proof.
  intros Hallowed Hw.
  destruct a as [data|data|data|value|chainId|registry].
  1-3: match goal with
       | |- context [perform _ ?a _] =>
           destruct (event_store a w eq_refl) as [-> | (next & -> & Hnext)]
       end; [assumption | apply commit_configured; congruence].
  - simpl in *.
    destruct (setState_store value w) as [-> | [-> | (o & next & Hv & Hnext & ->)]].
    + assumption.
    + apply initialState_configured.
    + apply commit_configured. rewrite Hv in Hallowed.
      unfold to_state in Hnext.
      destruct (o_chainId o), (o_connections o), (o_current o), (o_status o);
        try discriminate.
      injection Hnext as <-. exact Hallowed.
  - simpl. now rewrite getClient_store.
  - assumption.
Qed.

(** C5 (as the code has it). In every state reached from the initial
    one by connector events, registry updates, [getClient] calls and
    [setState] calls whose value carries the id of a configured chain,
    [chainId] is the id of a configured chain; and a connector event
    after which the active connection reports a chain that is not
    configured leaves [chainId] as it was. *)
Theorem chainId_configured (w : World) :
  reachable parameters (configured_setState parameters) w ->
  isChainConfigured parameters (Some (State.chainId (store w))) = true
  /\ (forall a c,
        connector_event a = true ->
        selected_chainId (store (perform parameters a w)) = Some c ->
        isChainConfigured parameters (Some c) = false ->
        State.chainId (store (perform parameters a w))
        = State.chainId (store w)).
Proof.
  intros Hreach. split.
  - induction Hreach as [registry | a w Hreach IH Hallowed].
    + apply initialState_configured.
    + now apply perform_configured.
  - intros a c Hevent Hsel Hconf.
    destruct (event_store a w Hevent) as [-> | (next & Hstore & Hnext)];
      [reflexivity|].
    rewrite Hstore in *. rewrite commit_selected in Hsel.
    rewrite commit_unconfigured; [assumption|]. now rewrite Hsel.
Qed.

End ChainId.

(** ** The connector transport *)

Module ConnectorTransportFacts.
Import ConnectorTransport.

Lemma probe_unsuccessful (fn : CreateConnectorFn) (env : Env) :
  never_works fn -> unsuccessful env -> unsuccessful (probe fn env).
Proof.
  intros Hfn [Hnone Hsusp]. unfold probe.
  destruct fn as [connector|error]; [|now split].
  simpl in Hfn.
  destruct (getProvider connector (calls env)) as [promise|error] eqn:Hcall;
    [|now split].
  split; [assumption|]. simpl.
  apply Forall_app. split; [assumption|].
  constructor; [|constructor]. simpl. intros provider ->.
  now apply (Hfn (calls env) provider).
Qed.

Lemma probes_unsuccessful (fns : list CreateConnectorFn) (env : Env) :
  Forall never_works fns -> unsuccessful env ->
  unsuccessful (fold_left (fun env fn => probe fn env) fns env).
Proof.
  intros Hfns. revert env.
  induction Hfns as [|fn fns Hfn _ IH]; simpl; [trivial|].
  intros env Henv. apply IH. now apply probe_unsuccessful.
Qed.

Lemma resume_unsuccessful (i : nat) (env : Env) :
  unsuccessful env -> unsuccessful (resume i env).
Proof.
  intros [Hnone Hsusp]. unfold resume.
  destruct (suspended env !! i) as [k|] eqn:Hk; [|now split].
  assert (Hrest : Forall
            (fun k => forall provider, awaited k <> Fulfilled (Some provider))
            (take i (suspended env) ++ drop (S i) (suspended env))).
  { apply Forall_app. split; [now apply Forall_take | now apply Forall_drop]. }
  assert (Hawait : forall provider, awaited k <> Fulfilled (Some provider)).
  { eapply Forall_lookup_1 in Hsusp; [exact Hsusp | exact Hk]. }
  unfold continue.
  destruct (awaited k) as [[provider|]| | |] eqn:Ha; try (now split).
  now destruct (Hawait provider).
Qed.

Lemma after_unsuccessful (schedule : list nat) (env : Env) :
  unsuccessful env -> unsuccessful (after schedule env).
Proof.
  unfold after. revert env.
  induction schedule as [|i schedule IH]; simpl; [trivial|].
  intros env Henv. apply IH. now apply resume_unsuccessful.
Qed.

(** C1 (the code when no connector works). When every factory throws
    or returns a connector that never resolves a provider,
    [successfulConnector] is still [null] whenever a request is made,
    whichever suspended callbacks have run by then, and the request
    ends with the [TypeError] of calling [getProvider] on [null]. *)
Theorem request_without_connector
    (createConnectorFns : list CreateConnectorFn)
    (config : ConnectorTransportConfig) (schedule : list nat)
    (method : string) (params : list string) :
  Forall never_works createConnectorFns ->
  let env :=
    after schedule (fst (experimental_connector createConnectorFns config)) in
  request method params env = (RejectedTypeError, env).
Proof.
  intros Hfns env.
  assert (Henv : unsuccessful env).
  { apply after_unsuccessful. simpl. apply probes_unsuccessful; [assumption|].
    split; [reflexivity | constructor]. }
  destruct Henv as [Hnone _]. unfold request. now rewrite Hnone.
Qed.

End ConnectorTransportFacts.

(** ** More on the event handlers *)

Section MoreHandlers.

Variable parameters : CreateConfigParameters.

Lemma set_present (k : string) (c : Connection.t) (m : JsMap.t Connection.t) :
  JsMap.get k m = Some c -> JsMap.set k c m = m.
Proof.
  induction m as [|[k' c'] m IH]; simpl; [discriminate|].
  destruct (String.eqb k' k) eqn:E.
  - apply String.eqb_eq in E. subst k'. now intros [= ->].
  - intros H. now rewrite IH.
Qed.

Lemma delete_set_fresh (k : string) (c : Connection.t)
    (m : JsMap.t Connection.t) :
  JsMap.get k m = None -> JsMap.delete k (JsMap.set k c m) = m.
Proof.
  induction m as [|[k' c'] m IH]; simpl.
  - now rewrite String.eqb_refl.
  - destruct (String.eqb k' k) eqn:E; [discriminate|].
    intros H. simpl. now rewrite E, IH.
Qed.

Lemma set_not_empty (k : string) (c : Connection.t) (m : JsMap.t Connection.t) :
  JsMap.set k c m <> [].
Proof. destruct m as [|[k' c'] m]; simpl; [|destruct (String.eqb k' k)]; discriminate. Qed.

(** X1. While the status is [connecting] or [reconnecting] a connect
    event is dropped: nothing is written, whatever the event carries and
    whether or not its connector is registered. *)
Theorem connect_dropped_while_connecting (data : ConnectData.t) (w : World) :
  State.status (store w) = connecting
  \/ State.status (store w) = reconnecting ->
  connect parameters data w = (Normal tt, w).
Proof.
  intros [H|H]; unfold connect, bind, getState, ret; simpl; now rewrite H.
Qed.

(** X2. While the status is neither [connecting] nor [reconnecting], a
    registered connector that has no connection connects and then
    disconnects: the connections are what they were before, and the
    disconnect has told the emitter of the connector to stop listening
    for [change] and [disconnect] and to listen for [connect]. *)
Theorem connect_then_disconnect (data : ConnectData.t) (w : World)
    (connector : Connector.t) :
  State.status (store w) <> connecting ->
  State.status (store w) <> reconnecting ->
  find (fun c => String.eqb (Connector.uid c) (ConnectData.uid data))
       (connectors w) = Some connector ->
  JsMap.get (ConnectData.uid data) (State.connections (store w)) = None ->
  let w1 := snd (connect parameters data w) in
  let w2 :=
    snd (disconnect parameters {| DisconnectData.uid := ConnectData.uid data |}
           w1) in
  State.connections (store w2) = State.connections (store w)
  /\ emitter_calls w2
     = (emitter_calls w
        ++ [emitter_off (Connector.uid connector) ev_change;
            emitter_off (Connector.uid connector) ev_disconnect;
            emitter_on (Connector.uid connector) ev_connect])%list.
Proof.
  intros Hc Hr Hfind Hfresh w1 w2.
  assert (Hw1 : State.connections (store w1)
                = JsMap.set (ConnectData.uid data)
                    {| Connection.accounts := ConnectData.accounts data;
                       Connection.chainId := ConnectData.chainId data;
                       Connection.connector := connector |}
                    (State.connections (store w))
                /\ emitter_calls w1 = emitter_calls w).
  { subst w1. run_M.
    destruct (State.status (store w)); try congruence;
      rewrite Hfind; simpl; now rewrite commit_connections. }
  destruct Hw1 as [Hconns Hcalls].
  subst w2. run_M. rewrite Hconns, JsMapFacts.get_set_eq. simpl.
  rewrite (delete_set_fresh _ _ _ Hfresh), Hcalls.
  destruct (State.connections (store w)) as [|[k c] others] eqn:Hm; simpl.
  - rewrite commit_connections. simpl. split; [reflexivity|].
    now rewrite <- !app_assoc.
  - rewrite commit_connections. simpl. split; [reflexivity|].
    now rewrite <- !app_assoc.
Qed.

(** X3. A disconnect event never throws, and it tells the emitter of the
    connector to stop listening for [change] and [disconnect] and to
    listen for [connect] exactly when the uid has a connection; for a uid
    without a connection no emitter is touched. *)
Theorem disconnect_emitter_calls (data : DisconnectData.t) (w : World) :
  fst (disconnect parameters data w) = Normal tt
  /\ emitter_calls (snd (disconnect parameters data w))
     = match JsMap.get (DisconnectData.uid data) (State.connections (store w)) with
       | Some c =>
           let e := Connector.uid (Connection.connector c) in
           (emitter_calls w
            ++ [emitter_off e ev_change; emitter_off e ev_disconnect;
                emitter_on e ev_connect])%list
       | None => emitter_calls w
       end.
Proof.
  run_M.
  destruct (JsMap.get _ _); simpl;
    destruct (JsMap.delete _ _) as [|[k c'] others]; simpl;
    rewrite <- ?app_assoc; auto.
Qed.

(** X4. When a disconnect event leaves no connection, the store is put
    back to status [disconnected] with no current uid, whatever the
    status was, a pending [connecting] or [reconnecting] included, and
    even when the uid had no connection. *)
Theorem disconnect_last_resets_status (data : DisconnectData.t) (w : World) :
  JsMap.delete (DisconnectData.uid data) (State.connections (store w)) = [] ->
  let s' := store (snd (disconnect parameters data w)) in
  State.status s' = disconnected
  /\ State.current s' = None
  /\ State.connections s' = []
  /\ State.chainId s' = State.chainId (store w).
Proof.
  intros Hempty s'. subst s'. run_M. rewrite Hempty.
  destruct (JsMap.get _ _); simpl;
    rewrite commit_status, commit_current, commit_connections; simpl;
    (repeat split; try reflexivity);
    now rewrite commit_unconfigured.
Qed.

(** X5. A connect event outside [connecting] and [reconnecting], for a
    registered connector, makes that connector current from any status:
    the other connections are kept as they are and in their order, the
    entry of the uid is overwritten where it stands or, when new, added
    last. *)
Theorem connect_adds_connection (data : ConnectData.t) (w : World)
    (connector : Connector.t) :
  State.status (store w) <> connecting ->
  State.status (store w) <> reconnecting ->
  find (fun c => String.eqb (Connector.uid c) (ConnectData.uid data))
       (connectors w) = Some connector ->
  let s' := store (snd (connect parameters data w)) in
  State.status s' = connected
  /\ State.current s' = Some (ConnectData.uid data)
  /\ JsMap.get (ConnectData.uid data) (State.connections s')
     = Some {| Connection.accounts := ConnectData.accounts data;
               Connection.chainId := ConnectData.chainId data;
               Connection.connector := connector |}
  /\ (forall k, k <> ConnectData.uid data ->
        JsMap.get k (State.connections s')
        = JsMap.get k (State.connections (store w)))
  /\ JsMap.keys (State.connections s')
     = match JsMap.get (ConnectData.uid data) (State.connections (store w)) with
       | Some _ => JsMap.keys (State.connections (store w))
       | None =>
           (JsMap.keys (State.connections (store w))
            ++ [ConnectData.uid data])%list
       end.
Proof.
  intros Hc Hr Hfind s'. subst s'. run_M.
  destruct (State.status (store w)); try congruence;
    rewrite Hfind; simpl;
    rewrite commit_status, commit_current, commit_connections; simpl;
    (split; [reflexivity|]); (split; [reflexivity|]);
    (split; [apply JsMapFacts.get_set_eq|]);
    (split; [intros k Hk; apply JsMapFacts.get_set_ne; congruence|]);
    apply JsMapFacts.keys_set.
Qed.

(** X6. A change event that carries neither accounts nor a chain id, for
    a uid that has a connection, hands the store a new state, as every
    change event that goes through does, and the contents of that state
    are those of the state before: the same [chainId], [current] and
    [status], the same connections in the same order with the same
    accounts, chain ids and connectors. The subscription's listener does
    not run, and nothing else of the config object changes. *)
Theorem change_without_payload (data : ChangeData.t) (w : World)
    (connection : Connection.t) :
  ChangeData.accounts data = None ->
  ChangeData.chainId data = None ->
  JsMap.get (ChangeData.uid data) (State.connections (store w))
    = Some connection ->
  change_update data (store w) w = (Normal (Replaced (store w)), w)
  /\ commit parameters (store w) (store w) = store w
  /\ change parameters data w = (Normal tt, w).
Proof.
  intros Ha Hc Hget.
  assert (Hupdate : change_update data (store w) w
                    = (Normal (Replaced (store w)), w)).
  { run_M. rewrite Hget, Ha, Hc. simpl.
    destruct connection as [accounts chainId connector]. simpl.
    rewrite (set_present _ _ _ Hget). now destruct (store w). }
  split; [exact Hupdate|]. split; [apply commit_same|].
  unfold change, store_setState, bind, getState.
  cbv beta iota zeta. rewrite Hupdate. cbv beta iota zeta.
  rewrite commit_same. now destruct w.
Qed.

(** X7. With [syncConnectedChain] enabled, a connect event for a
    registered connector on a configured chain moves the store's
    [chainId] to that chain when the chain reported by the current
    connection changes by it; when the current connection already
    reported that chain, [chainId] is left as it is. A connector whose
    uid is the empty string is never followed. *)
Theorem connect_syncs_chainId (data : ConnectData.t) (w : World)
    (connector : Connector.t) :
  syncConnectedChain parameters = true ->
  State.status (store w) <> connecting ->
  State.status (store w) <> reconnecting ->
  find (fun c => String.eqb (Connector.uid c) (ConnectData.uid data))
       (connectors w) = Some connector ->
  isChainConfigured parameters (Some (ConnectData.chainId data)) = true ->
  let s' := store (snd (connect parameters data w)) in
  (ConnectData.uid data <> "" ->
   selected_chainId (store w) <> Some (ConnectData.chainId data) ->
   State.chainId s' = ConnectData.chainId data)
  /\ (ConnectData.uid data <> "" ->
      selected_chainId (store w) = Some (ConnectData.chainId data) ->
      State.chainId s' = State.chainId (store w))
  /\ (ConnectData.uid data = "" ->
      State.chainId s' = State.chainId (store w)).
Proof.
  intros Hsync Hc Hr Hfind Hconf s'.
  assert (Hs' : exists next,
             s' = commit parameters (store w) next
             /\ State.chainId next = State.chainId (store w)
             /\ selected_chainId next
                = if String.eqb (ConnectData.uid data) "" then None
                  else Some (ConnectData.chainId data)).
  { subst s'. run_M.
    destruct (State.status (store w)); try congruence;
      rewrite Hfind; simpl; eexists; (split; [reflexivity|]);
      (split; [reflexivity|]); unfold selected_chainId; simpl;
      now rewrite JsMapFacts.get_set_eq. }
  destruct Hs' as (next & -> & HchainId & Hsel).
  unfold commit, sync_listener. rewrite Hsync, Hsel.
  split; [|split].
  - intros Huid Hne. apply String.eqb_neq in Huid. rewrite Huid.
    rewrite decide_False by congruence. now rewrite Hconf.
  - intros Huid Heq. apply String.eqb_neq in Huid. rewrite Huid.
    now rewrite decide_True by congruence.
  - intros ->. simpl. now destruct (decide _).
Qed.

(** X8. With [syncConnectedChain] disabled no connector event writes
    [chainId]. *)
Theorem events_keep_chainId_without_sync (a : Action) (w : World) :
  syncConnectedChain parameters = false ->
  connector_event a = true ->
  State.chainId (store (perform parameters a w)) = State.chainId (store w).
Proof.
  intros Hsync Hevent.
  destruct (event_store parameters a w Hevent) as [-> | (next & -> & Hnext)];
    [reflexivity|].
  unfold commit. now rewrite Hsync.
Qed.

(** X24. The public [setState] takes a complete state as it is for
    [connections], [current] and [status]; its [chainId] is taken too,
    unless the subscription replaces it at once by the configured chain
    the state's current connection reports. *)
Theorem setState_complete (value : JsValue) (w : World) (o : ObjectValue)
    (s : State.t) :
  candidate value (store w) = js_object o ->
  to_state o = Some s ->
  let s' := store (snd (setState parameters value w)) in
  fst (setState parameters value w) = Normal tt
  /\ State.connections s' = State.connections s
  /\ State.current s' = State.current s
  /\ State.status s' = State.status s
  /\ (State.chainId s' = State.chainId s
      \/ (syncConnectedChain parameters = true
          /\ selected_chainId s <> selected_chainId (store w)
          /\ selected_chainId s = Some (State.chainId s')
          /\ isChainConfigured parameters (Some (State.chainId s')) = true)).
Proof.
  intros Hv Hs s'. subst s'. rewrite setState_cases, Hv, Hs. simpl.
  rewrite commit_connections, commit_current, commit_status.
  repeat split. apply commit_chainId.
Qed.

End MoreHandlers.

(** ** What the event handlers keep *)

Section Invariants.

Variable parameters : CreateConfigParameters.

Lemma consistent_commit (prev next : State.t) :
  consistent next -> consistent (commit parameters prev next).
Proof.
  unfold consistent.
  now rewrite commit_connections, commit_status, commit_current.
Qed.

Lemma consistent_initialState : consistent (initialState parameters).
Proof.
  repeat split; simpl; auto.
  - apply NoDup_nil_2.
  - intros k c. discriminate.
Qed.

Lemma keyed_set (k : string) (e : Connection.t) (m : JsMap.t Connection.t) :
  keyed_by_connector m ->
  Connector.uid (Connection.connector e) = k ->
  keyed_by_connector (JsMap.set k e m).
Proof.
  intros Hm He k' c. destruct (decide (k = k')) as [<-|Hne].
  - rewrite JsMapFacts.get_set_eq. now intros [= <-].
  - rewrite JsMapFacts.get_set_ne by assumption. apply Hm.
Qed.

Lemma keyed_delete (k : string) (m : JsMap.t Connection.t) :
  keyed_by_connector m -> keyed_by_connector (JsMap.delete k m).
Proof.
  intros Hm k' c. destruct (decide (k = k')) as [<-|Hne].
  - now rewrite JsMapFacts.get_delete_eq.
  - rewrite JsMapFacts.get_delete_ne by assumption. apply Hm.
Qed.

Lemma get_set_is_Some (k k' : string) (e c : Connection.t)
    (m : JsMap.t Connection.t) :
  JsMap.get k' m = Some c -> exists c', JsMap.get k' (JsMap.set k e m) = Some c'.
Proof.
  intros H. destruct (decide (k = k')) as [<-|Hne].
  - rewrite JsMapFacts.get_set_eq. eauto.
  - rewrite JsMapFacts.get_set_ne by assumption. eauto.
Qed.

Lemma change_consistent (data : ChangeData.t) (w : World) :
  consistent (store w) ->
  consistent (store (snd (change parameters data w))).
Proof.
  intros Hw. run_M.
  destruct (JsMap.get _ _) as [connection|] eqn:Hget.
  2: { destruct (ChangeData.accounts data), (ChangeData.chainId data);
         exact Hw. }
  destruct Hw as (Hwf & Hkeyed & Hshape).
  assert (Hnext : forall accounts chainId,
             consistent
               {| State.chainId := State.chainId (store w);
                  State.connections :=
                    JsMap.set (ChangeData.uid data)
                      {| Connection.accounts := accounts;
                         Connection.chainId := chainId;
                         Connection.connector := Connection.connector connection |}
                      (State.connections (store w));
                  State.current := State.current (store w);
                  State.status := State.status (store w) |}).
  { intros accounts chainId. unfold consistent. simpl.
    split; [now apply JsMapFacts.wf_set|].
    split; [apply keyed_set; [assumption | exact (Hkeyed _ _ Hget)]|].
    destruct (JsMap.set _ _ _) as [|entry others] eqn:Hset;
      [now apply set_not_empty in Hset|].
    rewrite <- Hset.
    destruct (State.connections (store w)) as [|entry0 others0] eqn:Hm;
      [discriminate|].
    destruct Hshape as (Hstatus & k & c & Hcurrent & Hk).
    split; [assumption|].
    destruct (get_set_is_Some (ChangeData.uid data) k
                {| Connection.accounts := accounts;
                   Connection.chainId := chainId;
                   Connection.connector := Connection.connector connection |}
                c _ Hk) as [c' Hc'].
    eauto. }
  destruct (ChangeData.accounts data), (ChangeData.chainId data); simpl;
    apply consistent_commit, Hnext.
Qed.

Lemma connect_consistent (data : ConnectData.t) (w : World) :
  consistent (store w) ->
  consistent (store (snd (connect parameters data w))).
Proof.
  intros Hw. run_M.
  destruct (State.status (store w)); try exact Hw;
    (destruct (find _ _) as [connector|] eqn:Hfind; [|exact Hw]);
    simpl; apply consistent_commit;
    destruct Hw as (Hwf & Hkeyed & _);
    apply find_some in Hfind as [_ Huid]; apply String.eqb_eq in Huid;
    unfold consistent; simpl;
    (split; [now apply JsMapFacts.wf_set|]);
    (split; [now apply keyed_set|]);
    (destruct (JsMap.set _ _ _) as [|entry others] eqn:Hset;
      [now apply set_not_empty in Hset|]);
    rewrite <- Hset; (split; [reflexivity|]);
    do 2 eexists; (split; [reflexivity | apply JsMapFacts.get_set_eq]).
Qed.

Lemma disconnect_consistent (data : DisconnectData.t) (w : World) :
  consistent (store w) ->
  consistent (store (snd (disconnect parameters data w))).
Proof.
  intros (Hwf & Hkeyed & Hshape).
  assert (Hnext : consistent
            (store (snd (disconnect parameters data w)))
          <-> consistent
                (match JsMap.delete (DisconnectData.uid data)
                         (State.connections (store w)) with
                 | [] =>
                     {| State.chainId := State.chainId (store w);
                        State.connections := [];
                        State.current := None;
                        State.status := disconnected |}
                 | (k, c) :: others =>
                     {| State.chainId := State.chainId (store w);
                        State.connections := (k, c) :: others;
                        State.current :=
                          Some (Connector.uid (Connection.connector c));
                        State.status := State.status (store w) |}
                 end)).
  { run_M. unfold consistent.
    destruct (JsMap.get _ _); simpl;
      destruct (JsMap.delete _ _) as [|[k c] others]; simpl;
      now rewrite commit_connections, commit_status, commit_current. }
  apply Hnext.
  pose proof (JsMapFacts.wf_delete (DisconnectData.uid data) _ Hwf) as Hwf'.
  pose proof (keyed_delete (DisconnectData.uid data) _ Hkeyed) as Hkeyed'.
  destruct (JsMap.delete _ _) as [|[k c] others] eqn:Hdel.
  - repeat split; simpl; auto.
  - unfold consistent. simpl. split; [assumption|]. split; [assumption|].
    assert (Hk : JsMap.get k ((k, c) :: others) = Some c)
      by (simpl; now rewrite String.eqb_refl).
    rewrite (Hkeyed' k c Hk).
    destruct (State.connections (store w)) as [|entry0 others0];
      [discriminate|].
    destruct Hshape as [Hstatus _]. split; [assumption|]. eauto.
Qed.

Lemma perform_consistent (a : Action) (w : World) :
  without_setState a w ->
  consistent (store w) -> consistent (store (perform parameters a w)).
Proof.
  destruct a; simpl; try contradiction; intros _ Hw.
  - now apply change_consistent.
  - now apply connect_consistent.
  - now apply disconnect_consistent.
  - now rewrite getClient_store.
  - assumption.
Qed.

Lemma reachable_consistent (w : World) :
  reachable parameters without_setState w -> consistent (store w).
Proof.
  induction 1 as [registry | a w _ IH Hallowed].
  - apply consistent_initialState.
  - now apply perform_consistent.
Qed.

(** X9. In every state reached without the public [setState], status,
    current uid and connections agree: the status is [connected] exactly
    when there is a connection and [disconnected] exactly when there is
    none, a current uid is set exactly when there is a connection, and
    the current uid has a connection, whose connector carries that uid. *)
Theorem events_keep_status_and_current (w : World) :
  reachable parameters without_setState w ->
  let s := store w in
  (State.status s = connected <-> State.connections s <> [])
  /\ (State.status s = disconnected <-> State.connections s = [])
  /\ (State.current s = None <-> State.connections s = [])
  /\ (forall k,
        State.current s = Some k ->
        exists c,
          JsMap.get k (State.connections s) = Some c
          /\ Connector.uid (Connection.connector c) = k).
Proof.
  intros Hreach s. subst s.
  destruct (reachable_consistent w Hreach) as (_ & Hkeyed & Hshape).
  destruct (State.connections (store w)) as [|entry others] eqn:Hm.
  - destruct Hshape as [-> ->]. repeat split; try congruence.
  - destruct Hshape as (-> & k & c & -> & Hk).
    repeat split; try congruence.
    intros k' [= <-]. exists c. split; [assumption|]. now apply Hkeyed.
Qed.

(** X10. In every state reached without the public [setState], no uid
    has two connections and every connection is filed under the uid of
    its own connector. *)
Theorem events_keep_connections_keyed (w : World) :
  reachable parameters without_setState w ->
  JsMap.wf (State.connections (store w))
  /\ (forall k c,
        JsMap.get k (State.connections (store w)) = Some c ->
        Connector.uid (Connection.connector c) = k).
Proof.
  intros Hreach.
  destruct (reachable_consistent w Hreach) as (Hwf & Hkeyed & _).
  split; assumption.
Qed.

(** The store's [chainId] follows the slice the subscription selects,
    in every state reached without the public [setState]. *)
Lemma reachable_chainId_selected (w : World) (c : Z) :
  reachable parameters without_setState w ->
  syncConnectedChain parameters = true ->
  selected_chainId (store w) = Some c ->
  isChainConfigured parameters (Some c) = true ->
  State.chainId (store w) = c.
Proof.
  intros Hreach Hsync. revert c.
  induction Hreach as [registry | a w _ IH Hallowed]; intros c Hsel Hconf.
  - discriminate.
  - assert (Hstore : store (perform parameters a w) = store w
                     \/ exists next,
                          store (perform parameters a w)
                          = commit parameters (store w) next
                          /\ State.chainId next = State.chainId (store w)).
    { destruct a; try (now apply event_store); try contradiction.
      - left. apply getClient_store.
      - now left. }
    destruct Hstore as [Hsame | (next & Hnext & HchainId)].
    + rewrite Hsame in *. now apply IH.
    + rewrite Hnext in *. rewrite commit_selected in Hsel.
      unfold commit, sync_listener. rewrite Hsync.
      destruct (decide _) as [Heq|Hne].
      * rewrite HchainId. apply IH; congruence.
      * now rewrite Hsel, Hconf.
Qed.

(** X11. With [syncConnectedChain] enabled, in every state reached
    without the public [setState], when the current uid is not the empty
    string and its connection reports a configured chain, the store's
    [chainId] is that chain. (A current uid that is the empty string is
    not followed: the subscription's selector takes it for no uid.) *)
Theorem events_chainId_tracks_connection (w : World) (k : string)
    (connection : Connection.t) :
  reachable parameters without_setState w ->
  syncConnectedChain parameters = true ->
  State.current (store w) = Some k ->
  k <> "" ->
  JsMap.get k (State.connections (store w)) = Some connection ->
  isChainConfigured parameters (Some (Connection.chainId connection)) = true ->
  State.chainId (store w) = Connection.chainId connection.
Proof.
  intros Hreach Hsync Hcurrent Hk Hget Hconf.
  apply reachable_chainId_selected; try assumption.
  unfold selected_chainId. rewrite Hcurrent, Hget.
  apply String.eqb_neq in Hk. now rewrite Hk.
Qed.

End Invariants.

(** ** More on the client cache *)

Section MoreClientCache.

Variable parameters : CreateConfigParameters.

Lemma find_chain_configured (X : Z) :
  isChainConfigured parameters (Some X) = true ->
  exists chain,
    find (fun x => Z.eqb (Chain.id x) X) (chains parameters) = Some chain
    /\ Chain.id chain = X.
Proof.
  unfold isChainConfigured. generalize (chains parameters).
  induction l as [|chain l IH]; simpl; [discriminate|].
  destruct (Z.eqb (Chain.id chain) X) eqn:E.
  - intros _. exists chain. split; [reflexivity | now apply Z.eqb_eq].
  - exact IH.
Qed.

(** The client the configured transports give for [chain]. *)
Lemma getClient_found (X : Z) (w : World) (chain : Chain.t) :
  find (fun x => Z.eqb (Chain.id x) X) (chains parameters) = Some chain ->
  getClient parameters (Some X) w
  = match clients w !! X with
    | Some client => (Normal client, w)
    | None =>
        match priority_connector (State.current (store w)) (connectors w) with
        | Some connector =>
            (Normal {| Client.ref := allocated w; Client.chain := chain;
                       Client.batch := multicall; Client.properties := [];
                       Client.transport := custom_connector connector |},
             {| store := store w; connectors := connectors w;
                clients := clients w; allocated := S (allocated w);
                emitter_calls := emitter_calls w |})
        | None =>
            let client :=
              if param_client parameters then
                {| Client.ref := allocated w; Client.chain := chain;
                   Client.batch := multicall; Client.properties := [];
                   Client.transport := client_factory |}
              else
                {| Client.ref := allocated w; Client.chain := chain;
                   Client.batch :=
                     resolve_batch
                       (resolve_properties (Chain.id chain)
                          (param_rest parameters));
                   Client.properties :=
                     resolve_properties (Chain.id chain) (param_rest parameters);
                   Client.transport := configured_transport (Chain.id chain) |} in
            (Normal client,
             {| store := store w; connectors := connectors w;
                clients := <[X := client]> (clients w);
                allocated := S (allocated w);
                emitter_calls := emitter_calls w |})
        end
    end.
Proof.
  intros Hchain.
  unfold getClient, bind, getState, getClients, getConnectors, createClient,
    clients_set, ret. cbv beta iota zeta. rewrite Hchain.
  destruct (clients w !! State.chainId (store w));
    destruct (clients w !! X); try reflexivity;
    destruct (priority_connector _ _); try reflexivity;
    destruct (param_client parameters); reflexivity.
Qed.

Lemma getClient_not_found (X : Z) (w : World) :
  find (fun x => Z.eqb (Chain.id x) X) (chains parameters) = None ->
  snd (getClient parameters (Some X) w) = w.
Proof.
  intros Hchain.
  unfold getClient, bind, getState, getClients, ret, throw.
  cbv beta iota zeta. rewrite Hchain.
  now destruct (clients w !! State.chainId (store w)).
Qed.

Lemma getClient_default (w : World) :
  getClient parameters None w
  = getClient parameters (Some (State.chainId (store w))) w.
Proof. reflexivity. Qed.

(** Nothing but [getClient] writes to the cache. *)
Lemma perform_clients (a : Action) (w : World) :
  (forall chainId, a <> act_getClient chainId) ->
  clients (perform parameters a w) = clients w.
Proof.
  intros Hnot. destruct a as [data|data|data|value|chainId|registry]; simpl.
  - run_M. destruct (JsMap.get _ _);
      destruct (ChangeData.accounts data), (ChangeData.chainId data);
      reflexivity.
  - run_M. destruct (State.status (store w)); try reflexivity;
      destruct (find _ _); reflexivity.
  - run_M. destruct (JsMap.get _ _); simpl;
      destruct (JsMap.delete _ _) as [|[k c] others]; reflexivity.
  - rewrite setState_cases.
    destruct (candidate value (store w)) as [| | | | | |o]; try reflexivity.
    now destruct (to_state o).
  - now destruct (Hnot chainId).
  - reflexivity.
Qed.

(** X12. A cached client stays where it is: no event, no [setState], no
    registry update and no later [getClient] removes it or puts another
    client in its place. *)
Theorem cache_never_evicts (a : Action) (w : World) (k : Z)
    (client : Client.t) :
  clients w !! k = Some client ->
  clients (perform parameters a w) !! k = Some client.
Proof.
  intros Hcached.
  destruct a as [data|data|data|value|chainId|registry];
    try (rewrite perform_clients by discriminate; assumption).
  simpl. destruct chainId as [X|]; [|rewrite getClient_default];
    match goal with
    | |- context [getClient parameters (Some ?X) w] =>
        destruct (find (fun x => Z.eqb (Chain.id x) X) (chains parameters))
          as [chain|] eqn:Hchain;
          [rewrite (getClient_found X w chain Hchain)
          |now rewrite (getClient_not_found X w Hchain)];
          destruct (clients w !! X) eqn:Hmiss; [assumption|];
          destruct (priority_connector _ _); [assumption|];
          simpl; rewrite lookup_insert_ne; [assumption | congruence]
    end.
Qed.

(** X13. A client cached for a configured chain is what [getClient]
    returns for that chain, with nothing built and nothing written, also
    when a priority connector has become the current one since. *)
Theorem getClient_cached (X : Z) (w : World) (client : Client.t) :
  isChainConfigured parameters (Some X) = true ->
  clients w !! X = Some client ->
  getClient parameters (Some X) w = (Normal client, w).
Proof.
  intros Hconf Hcached.
  destruct (find_chain_configured X Hconf) as (chain & Hchain & _).
  now rewrite (getClient_found X w chain Hchain), Hcached.
Qed.

(** X14. For a configured chain with no cached client and no priority
    connector current, a config made with [transports] builds the client
    on the transport configured for that chain, never hands it the
    [client], [connectors] or [transports] entries as properties, stores
    it under the chain id and returns it. *)
Theorem getClient_builds_and_caches (X : Z) (w : World) :
  param_client parameters = false ->
  isChainConfigured parameters (Some X) = true ->
  clients w !! X = None ->
  priority_connector (State.current (store w)) (connectors w) = None ->
  exists client,
    fst (getClient parameters (Some X) w) = Normal client
    /\ Chain.id (Client.chain client) = X
    /\ Client.transport client = configured_transport X
    /\ Forall (fun e => fst e <> "client" /\ fst e <> "connectors"
                        /\ fst e <> "transports")
         (Client.properties client)
    /\ clients (snd (getClient parameters (Some X) w)) !! X = Some client
    /\ store (snd (getClient parameters (Some X) w)) = store w.
Proof.
  intros Hvariant Hconf Hmiss Hprio.
  destruct (find_chain_configured X Hconf) as (chain & Hchain & Hid).
  rewrite (getClient_found X w chain Hchain), Hmiss, Hprio, Hvariant.
  eexists. split; [reflexivity|]. simpl. rewrite Hid.
  repeat split; try reflexivity; [|apply lookup_insert_eq].
  generalize (param_rest parameters).
  induction l as [|[key value] l IH]; simpl; [constructor|].
  destruct (String.eqb key "client") eqn:E1; simpl; [exact IH|].
  destruct (String.eqb key "connectors") eqn:E2; simpl; [exact IH|].
  destruct (String.eqb key "transports") eqn:E3; simpl; [exact IH|].
  constructor; [|exact IH]. simpl.
  apply String.eqb_neq in E1, E2, E3. auto.
Qed.

Lemma perform_cache_keyed (a : Action) (w : World) :
  cache_keyed w -> cache_keyed (perform parameters a w).
Proof.
  intros Hw k client.
  destruct a as [data|data|data|value|chainId|registry];
    try (rewrite perform_clients by discriminate; apply Hw).
  simpl. destruct chainId as [X|]; [|rewrite getClient_default];
    match goal with
    | |- context [getClient parameters (Some ?X) w] =>
        destruct (find (fun x => Z.eqb (Chain.id x) X) (chains parameters))
          as [chain|] eqn:Hchain;
          [rewrite (getClient_found X w chain Hchain)
          |rewrite (getClient_not_found X w Hchain); apply Hw];
          destruct (clients w !! X) eqn:Hmiss; [apply Hw|];
          destruct (priority_connector _ _); [apply Hw|];
          simpl; destruct (decide (X = k)) as [<-|Hne];
          [rewrite lookup_insert_eq; intros [= <-];
           apply find_some in Hchain as [_ Hid]; apply Z.eqb_eq in Hid;
           now destruct (param_client parameters)
          |rewrite lookup_insert_ne by assumption; apply Hw]
    end.
Qed.

Lemma reachable_cache_keyed (allowed : Action -> World -> Prop) (w : World) :
  reachable parameters allowed w -> cache_keyed w.
Proof.
  induction 1 as [registry | a w _ IH _].
  - intros k client. simpl. now rewrite lookup_empty.
  - now apply perform_cache_keyed.
Qed.

Lemma reachable_configured (w : World) :
  reachable parameters (configured_setState parameters) w ->
  isChainConfigured parameters (Some (State.chainId (store w))) = true.
Proof.
  induction 1 as [registry | a w _ IH Hallowed].
  - apply initialState_configured.
  - now apply perform_configured.
Qed.

(** X15. Whatever has happened to the config object, [getClient] for a
    configured chain returns, and returns a client of that chain (a
    config made with [transports]). *)
Theorem getClient_configured (X : Z) (w : World) :
  param_client parameters = false ->
  reachable parameters any_action w ->
  isChainConfigured parameters (Some X) = true ->
  exists client,
    fst (getClient parameters (Some X) w) = Normal client
    /\ Chain.id (Client.chain client) = X.
Proof.
  intros _ Hreach Hconf.
  destruct (find_chain_configured X Hconf) as (chain & Hchain & Hid).
  rewrite (getClient_found X w chain Hchain).
  destruct (clients w !! X) as [client|] eqn:Hcache.
  - exists client. split; [reflexivity|].
    now apply (reachable_cache_keyed any_action w Hreach).
  - destruct (priority_connector _ _); [|destruct (param_client parameters)];
      eexists; (split; [reflexivity | exact Hid]).
Qed.

(** X16. As long as [setState] is given configured chains only,
    [getClient()] without a chain id never fails: it returns a client of
    the store's current chain (a config made with [transports]). *)
Theorem getClient_default_succeeds (w : World) :
  param_client parameters = false ->
  reachable parameters (configured_setState parameters) w ->
  exists client,
    fst (getClient parameters None w) = Normal client
    /\ Chain.id (Client.chain client) = State.chainId (store w).
Proof.
  intros _ Hreach. rewrite getClient_default.
  destruct (find_chain_configured _ (reachable_configured w Hreach))
    as (chain & Hchain & Hid).
  rewrite (getClient_found _ w chain Hchain).
  destruct (clients w !! State.chainId (store w)) as [client|] eqn:Hcache.
  - exists client. split; [reflexivity|].
    now apply (reachable_cache_keyed _ w Hreach).
  - destruct (priority_connector _ _); [|destruct (param_client parameters)];
      eexists; (split; [reflexivity | exact Hid]).
Qed.

End MoreClientCache.

(** ** More on the connector transport *)

Module ConnectorTransportMore.
Import ConnectorTransport.

Lemma probe_successfulConnector (fn : CreateConnectorFn) (env : Env) :
  successfulConnector (probe fn env) = successfulConnector env.
Proof.
  unfold probe. destruct fn as [connector|error]; [|reflexivity].
  now destruct (getProvider connector (calls env)).
Qed.

Lemma probes_successfulConnector (fns : list CreateConnectorFn) (env : Env) :
  successfulConnector (fold_left (fun env fn => probe fn env) fns env)
  = successfulConnector env.
Proof.
  revert env. induction fns as [|fn fns IH]; simpl; [reflexivity|].
  intros env. now rewrite IH, probe_successfulConnector.
Qed.

(** X17. A request made as soon as [experimental_connector] has
    returned, before the event loop has resumed any probe, is rejected
    with a [TypeError] whatever the factories are, working ones
    included: no probe sets [successfulConnector] before its [await]. *)
Theorem request_before_probes_settle
    (createConnectorFns : list CreateConnectorFn)
    (config : ConnectorTransportConfig)
    (method : string) (params : list string) :
  let env := fst (experimental_connector createConnectorFns config) in
  request method params env = (RejectedTypeError, env).
Proof.
  intros env. unfold request. subst env. simpl.
  now rewrite probes_successfulConnector.
Qed.



(** X19. When the event loop resumes a probe whose provider resolved,
    its connector becomes the successful one, in place of any connector
    chosen before; a request then asks that connector for its provider
    again and goes to the provider it returns now. *)
Theorem resume_selects_connector (i : nat) (env : Env) (k : Suspended)
    (probed_provider : EthereumProvider) :
  suspended env !! i = Some k ->
  awaited k = Fulfilled (Some probed_provider) ->
  let env' := resume i env in
  successfulConnector env' = Some (probed k)
  /\ (forall method params provider,
        getProvider (probed k) (calls env') = Returns (Fulfilled (Some provider)) ->
        fst (request method params env')
        = provider_request provider method params).
Proof.
  intros Hk Hawaited env'. subst env'.
  unfold resume, continue. rewrite Hk, Hawaited. simpl.
  split; [reflexivity|].
  intros method params provider Hnow. unfold request. simpl.
  now rewrite Hnow.
Qed.

Lemma probe_probed_from (fns : list CreateConnectorFn)
    (fn : CreateConnectorFn) (env : Env) :
  In fn fns -> probed_from fns env -> probed_from fns (probe fn env).
Proof.
  intros Hin [Hsel Hsusp]. unfold probe.
  destruct fn as [connector|error]; [|now split].
  destruct (getProvider connector (calls env)) as [promise|error] eqn:Hcall;
    [|now split].
  split; [assumption|]. simpl. apply Forall_app. split; [assumption|].
  constructor; [|constructor]. simpl. eauto.
Qed.

Lemma probes_probed_from (fns some : list CreateConnectorFn) (env : Env) :
  (forall fn, In fn some -> In fn fns) ->
  probed_from fns env ->
  probed_from fns (fold_left (fun env fn => probe fn env) some env).
Proof.
  revert env. induction some as [|fn some IH]; simpl; [trivial|].
  intros env Hincl Henv. apply IH; [auto|].
  apply probe_probed_from; auto.
Qed.

Lemma resume_probed_from (fns : list CreateConnectorFn) (i : nat) (env : Env) :
  probed_from fns env -> probed_from fns (resume i env).
Proof.
  intros [Hsel Hsusp]. unfold resume.
  destruct (suspended env !! i) as [k|] eqn:Hk; [|now split].
  pose proof (Forall_lookup_1 _ _ _ _ Hsusp Hk) as (Hin & n & Hn).
  assert (Hrest : Forall
            (fun k =>
               In (Returns (probed k)) fns
               /\ exists n, getProvider (probed k) n = Returns (awaited k))
            (take i (suspended env) ++ drop (S i) (suspended env))).
  { apply Forall_app. split; [now apply Forall_take | now apply Forall_drop]. }
  unfold continue.
  destruct (awaited k) as [[provider|]| | |] eqn:Ha; try (now split).
  split; [|assumption]. simpl. intros c [= <-]. eauto.
Qed.

(** X20. Whichever probes have been resumed and in whatever order, the
    connector the transport sends requests through, when there is one,
    was returned by a factory of the list and has resolved a provider. *)
Theorem selected_connector_resolved
    (createConnectorFns : list CreateConnectorFn)
    (config : ConnectorTransportConfig) (schedule : list nat)
    (connector : Connector) :
  successfulConnector
    (after schedule (fst (experimental_connector createConnectorFns config)))
  = Some connector ->
  In (Returns connector) createConnectorFns
  /\ exists n provider,
       getProvider connector n = Returns (Fulfilled (Some provider)).
Proof.
  assert (H : probed_from createConnectorFns
                (after schedule
                   (fst (experimental_connector createConnectorFns config)))).
  { unfold after.
    assert (H0 : probed_from createConnectorFns
                   (fst (experimental_connector createConnectorFns config))).
    { simpl. apply probes_probed_from; [auto|].
      split; [discriminate | constructor]. }
    revert H0. generalize (fst (experimental_connector createConnectorFns config)).
    induction schedule as [|i schedule IH]; simpl; [trivial|].
    intros env Henv. apply IH. now apply resume_probed_from. }
  intros Hsel. now apply (proj1 H).
Qed.

End ConnectorTransportMore.

(** ** The properties on the sample configurations *)

Module SampleFacts.
Import Sample.

Lemma three_connected_wf : JsMap.wf (State.connections (store three_connected)).
Proof.
  unfold JsMap.wf. apply (bool_decide_unpack _). vm_compute. exact I.
Qed.

(** No factory of the sample works; a request made after the suspended
    callback has run is rejected with a [TypeError]. *)
Lemma request_without_connector_sample :
  Forall ConnectorTransport.never_works
    [throwing_factory; null_provider_factory]
  /\ let env :=
       ConnectorTransport.after [0%nat]
         (fst (ConnectorTransport.experimental_connector
                 [throwing_factory; null_provider_factory] default_config)) in
     ConnectorTransport.request "eth_chainId" [] env
     = (ConnectorTransport.RejectedTypeError, env).
Proof.
  assert (H : Forall ConnectorTransport.never_works
                [throwing_factory; null_provider_factory]).
  { repeat constructor. intros n provider. discriminate. }
  split; [exact H|].
  exact (ConnectorTransportFacts.request_without_connector
           [throwing_factory; null_provider_factory] default_config [0%nat]
           "eth_chainId" [] H).
Defined.

(** A change event for a connector that never connected fails. *)
Lemma change_stray_fails :
  JsMap.get (ChangeData.uid stray_change) (State.connections (store fresh))
  = None
  /\ fst (change parameters stray_change fresh) = Throw TypeError.
Proof. split; reflexivity. Qed.

Lemma change_without_connection_sample :
  JsMap.get (ChangeData.uid stray_change) (State.connections (store fresh))
  = None
  /\ change parameters stray_change fresh = (Throw TypeError, fresh).
Proof.
  split; [reflexivity|].
  exact (change_without_connection parameters stray_change fresh eq_refl).
Defined.

(** With three connections and the last one current, disconnecting the
    second makes the first one current. *)
Lemma disconnect_other_moves_current :
  let data := {| DisconnectData.uid := "walletConnect" |} in
  let w' := snd (disconnect parameters data three_connected) in
  State.status (store three_connected) = connected
  /\ (2 <= JsMap.size (State.connections (store three_connected)))%nat
  /\ State.current (store three_connected) = Some "safe"
  /\ State.current (store w') = Some "injected".
Proof. vm_compute. repeat split. lia. Qed.

Lemma disconnect_other_sample :
  let data := {| DisconnectData.uid := "walletConnect" |} in
  let w' := snd (disconnect parameters data three_connected) in
  State.status (store w') = connected
  /\ JsMap.keys (State.connections (store w')) = ["injected"; "safe"].
Proof.
  intros data w'.
  destruct (disconnect_other parameters data three_connected)
    as (_ & Hconn & _ & _ & Hstatus & _).
  - reflexivity.
  - exact three_connected_wf.
  - vm_compute. lia.
  - discriminate.
  - split; [exact Hstatus|]. subst w'. rewrite Hconn. reflexivity.
Defined.

(** C4 (the code with a priority connector). The client of a
    configured chain is asked for twice while the priority connector is
    the current one: [getClient] builds a client at each call, the two
    are different objects, and none is stored in the cache. *)
Theorem getClient_priority_twice :
  let first := getClient parameters (Some 1) safe_connected in
  let second := getClient parameters (Some 1) (snd first) in
  exists client1 client2,
    fst first = Normal client1
    /\ fst second = Normal client2
    /\ Client.ref client1 <> Client.ref client2
    /\ clients (snd second) !! 1 = None.
Proof.
  intros first second. do 2 eexists.
  split; [reflexivity|]. split; [reflexivity|].
  split; [vm_compute; discriminate | reflexivity].
Qed.

(** [setState] commits a complete state whose chain is not configured. *)
Lemma foreign_chain_reachable :
  let w :=
    perform parameters
      (act_setState (js_object (of_state foreign_chain_state))) fresh in
  reachable parameters any_action w
  /\ isChainConfigured parameters (Some (State.chainId (store w))) = false.
Proof.
  split; [|reflexivity].
  apply reachable_step; [apply reachable_initial | exact I].
Qed.

Lemma chainId_configured_sample :
  reachable parameters (configured_setState parameters) three_connected
  /\ isChainConfigured parameters
       (Some (State.chainId (store three_connected))) = true.
Proof.
  assert (H : reachable parameters (configured_setState parameters)
                three_connected).
  { repeat (apply reachable_step; [|exact I]). apply reachable_initial. }
  split; [exact H|].
  exact (proj1 (chainId_configured parameters three_connected H)).
Defined.

(** A connect event in a state with status [disconnected] that still
    holds a connection: the connection stays. *)
Lemma connect_keeps_connections :
  let data := connected_to injected 1 in
  let w' := snd (connect parameters data rehydrated) in
  State.status (store rehydrated) = disconnected
  /\ find (fun c => String.eqb (Connector.uid c) (ConnectData.uid data))
          (connectors rehydrated) = Some injected
  /\ State.connections (store w')
     = [("walletConnect", connection walletConnect 1);
        ("injected", connection injected 1)].
Proof. repeat split. Qed.

Lemma connect_from_disconnected_sample :
  let data := connected_to injected 1 in
  let w' := snd (connect parameters data fresh) in
  State.status (store fresh) = disconnected
  /\ State.status (store w') = connected
  /\ State.current (store w') = Some "injected"
  /\ State.connections (store w') = [("injected", connection injected 1)].
Proof.
  intros data w'. split; [reflexivity|].
  destruct (connect_from_disconnected parameters data fresh eq_refl)
    as [Hsome _].
  destruct (Hsome injected eq_refl) as (_ & Hstatus & Hcurrent & _ & Hconns).
  split; [exact Hstatus|]. split; [exact Hcurrent|]. exact (Hconns eq_refl).
Defined.


(** The current connector moves to a configured chain: the change
    handler's state keeps [chainId], the store's subscription then
    follows the connector. *)
Lemma change_then_sync :
  let data :=
    {| ChangeData.uid := "safe";
       ChangeData.accounts := None;
       ChangeData.chainId := Some 10 |} in
  State.chainId (store three_connected) = 1
  /\ State.chainId (store (snd (change parameters data three_connected))) = 10.
Proof. split; reflexivity. Qed.

(** The current connector reports a move to optimism: after the change
    handler the store's [chainId] is no longer what it was. *)
Lemma change_moves_chainId :
  let data :=
    {| ChangeData.uid := "safe";
       ChangeData.accounts := None;
       ChangeData.chainId := Some 10 |} in
  JsMap.get "safe" (State.connections (store three_connected))
  = Some (connection safe 1)
  /\ State.chainId (store three_connected) = 1
  /\ State.chainId (store (snd (change parameters data three_connected))) = 10.
Proof. repeat split. Qed.

Lemma change_frame_store_sample :
  let data :=
    {| ChangeData.uid := "safe";
       ChangeData.accounts := None;
       ChangeData.chainId := Some 10 |} in
  let w' := snd (change parameters data three_connected) in
  JsMap.get "safe" (State.connections (store three_connected))
  = Some (connection safe 1)
  /\ State.current (store w') = State.current (store three_connected)
  /\ State.status (store w') = State.status (store three_connected)
  /\ JsMap.get "walletConnect" (State.connections (store w'))
     = JsMap.get "walletConnect" (State.connections (store three_connected))
  /\ State.chainId (store w') = 10.
Proof.
  intros data w'. split; [reflexivity|].
  assert (Huid : "safe" <> "") by congruence.
  assert (Hother : "walletConnect" <> "safe") by congruence.
  assert (Hchain : (10 <> 1)%Z) by lia.
  destruct (change_frame_store parameters data three_connected
              (connection safe 1) eq_refl)
    as (_ & Hcurrent & Hstatus & _ & Hothers & _ & Hsync & _).
  split; [exact Hcurrent|]. split; [exact Hstatus|].
  split; [exact (Hothers "walletConnect" Hother)|].
  exact (Hsync 10 eq_refl eq_refl Huid eq_refl Hchain eq_refl).
Defined.

(** A client is cached for optimism, the store is on mainnet: asking
    for an unconfigured chain fails all the same. *)
Lemma getClient_other_chain_cached :
  isChainConfigured parameters (Some 999) = false
  /\ is_Some (clients optimism_cached !! 10)
  /\ fst (getClient parameters (Some 999) optimism_cached)
     = Throw ChainNotConfiguredError.
Proof.
  split; [reflexivity|]. split; [|vm_compute; reflexivity].
  vm_compute. eauto.
Qed.

Lemma getClient_unconfigured_sample :
  isChainConfigured parameters (Some 999) = false
  /\ getClient parameters (Some 999) fresh
     = (Throw ChainNotConfiguredError, fresh).
Proof.
  split; [reflexivity|].
  exact (getClient_unconfigured parameters 999 fresh eq_refl).
Defined.

Lemma change_frame_sample :
  let data :=
    {| ChangeData.uid := "walletConnect";
       ChangeData.accounts := None;
       ChangeData.chainId := Some 10 |} in
  JsMap.get "walletConnect" (State.connections (store three_connected))
  = Some (connection walletConnect 1)
  /\ exists next,
       change_update data (store three_connected) three_connected
       = (Normal (Replaced next), three_connected)
       /\ State.chainId next = State.chainId (store three_connected)
       /\ State.current next = State.current (store three_connected)
       /\ State.status next = State.status (store three_connected).
Proof.
  intros data. split; [reflexivity|].
  destruct (change_frame parameters data three_connected
              (connection walletConnect 1) eq_refl)
    as (next & Hupdate & _ & HchainId & Hcurrent & Hstatus & _).
  exists next. repeat split; assumption.
Defined.

End SampleFacts.

(** ** The further properties on the sample configurations *)

Module MoreSampleFacts.
Import Sample MoreSample.

Lemma three_connected_by_events :
  reachable parameters without_setState three_connected.
Proof. repeat (apply reachable_step; [|exact I]). apply reachable_initial. Qed.

Lemma connect_dropped_sample :
  State.status (store connecting_world) = connecting
  /\ connect parameters (connected_to injected 1) connecting_world
     = (Normal tt, connecting_world).
Proof.
  split; [reflexivity|].
  exact (connect_dropped_while_connecting parameters (connected_to injected 1)
           connecting_world (or_introl eq_refl)).
Defined.

Lemma connect_then_disconnect_sample :
  let w1 := snd (connect parameters (connected_to injected 1) fresh) in
  let w2 :=
    snd (disconnect parameters {| DisconnectData.uid := "injected" |} w1) in
  JsMap.get "injected" (State.connections (store fresh)) = None
  /\ State.connections (store w2) = []
  /\ emitter_calls w2
     = [emitter_off "injected" ev_change; emitter_off "injected" ev_disconnect;
        emitter_on "injected" ev_connect].
Proof.
  split; [reflexivity|].
  exact (connect_then_disconnect parameters (connected_to injected 1) fresh
           injected ltac:(discriminate) ltac:(discriminate) eq_refl eq_refl).
Defined.

Lemma disconnect_resets_connecting_sample :
  let data := {| DisconnectData.uid := "injected" |} in
  State.status (store connecting_world) = connecting
  /\ JsMap.delete "injected" (State.connections (store connecting_world)) = []
  /\ State.status (store (snd (disconnect parameters data connecting_world)))
     = disconnected.
Proof.
  do 2 (split; [reflexivity|]).
  exact (proj1 (disconnect_last_resets_status parameters
                  {| DisconnectData.uid := "injected" |} connecting_world
                  eq_refl)).
Defined.

Lemma connect_adds_connection_sample :
  let s' :=
    store (snd (connect parameters (connected_to injected 1) safe_connected)) in
  State.status (store safe_connected) = connected
  /\ State.current s' = Some "injected"
  /\ JsMap.keys (State.connections s') = ["safe"; "injected"].
Proof.
  intros s'. split; [reflexivity|].
  destruct (connect_adds_connection parameters (connected_to injected 1)
              safe_connected injected ltac:(discriminate) ltac:(discriminate)
              eq_refl) as (_ & Hcurrent & _ & _ & Hkeys).
  split; [exact Hcurrent | exact Hkeys].
Defined.

Lemma change_without_payload_sample :
  let data :=
    {| ChangeData.uid := "walletConnect"; ChangeData.accounts := None;
       ChangeData.chainId := None |} in
  JsMap.get "walletConnect" (State.connections (store three_connected))
  = Some (connection walletConnect 1)
  /\ change_update data (store three_connected) three_connected
     = (Normal (Replaced (store three_connected)), three_connected)
  /\ change parameters data three_connected = (Normal tt, three_connected).
Proof.
  split; [reflexivity|].
  destruct (change_without_payload parameters
              {| ChangeData.uid := "walletConnect"; ChangeData.accounts := None;
                 ChangeData.chainId := None |}
              three_connected (connection walletConnect 1)
              eq_refl eq_refl eq_refl) as (Hupdate & _ & Hchange).
  split; [exact Hupdate | exact Hchange].
Defined.

Lemma connect_syncs_chainId_sample :
  State.chainId (store fresh) = 1
  /\ State.chainId
       (store (snd (connect parameters (connected_to injected 10) fresh)))
     = 10.
Proof.
  split; [reflexivity|].
  exact (proj1 (connect_syncs_chainId parameters (connected_to injected 10)
                  fresh injected eq_refl ltac:(discriminate)
                  ltac:(discriminate) eq_refl eq_refl)
           ltac:(discriminate) ltac:(discriminate)).
Defined.

Lemma events_keep_chainId_without_sync_sample :
  syncConnectedChain unsynced = false
  /\ State.chainId
       (store (perform unsynced (act_connect (connected_to injected 10))
                 (initial_world unsynced registry)))
     = 1.
Proof.
  split; [reflexivity|].
  exact (events_keep_chainId_without_sync unsynced
           (act_connect (connected_to injected 10))
           (initial_world unsynced registry) eq_refl eq_refl).
Defined.

Lemma events_keep_status_sample :
  reachable parameters without_setState three_connected
  /\ (State.status (store three_connected) = connected
      <-> State.connections (store three_connected) <> []).
Proof.
  split; [exact three_connected_by_events|].
  exact (proj1 (events_keep_status_and_current parameters three_connected
                  three_connected_by_events)).
Defined.

Lemma events_keep_connections_keyed_sample :
  reachable parameters without_setState three_connected
  /\ JsMap.wf (State.connections (store three_connected)).
Proof.
  split; [exact three_connected_by_events|].
  exact (proj1 (events_keep_connections_keyed parameters three_connected
                  three_connected_by_events)).
Defined.

Lemma events_chainId_tracks_sample :
  State.current (store three_connected) = Some "safe"
  /\ JsMap.get "safe" (State.connections (store three_connected))
     = Some (connection safe 1)
  /\ State.chainId (store three_connected) = 1.
Proof.
  assert (Hk : "safe" <> "") by congruence.
  do 2 (split; [reflexivity|]).
  exact (events_chainId_tracks_connection parameters three_connected "safe"
           (connection safe 1) three_connected_by_events eq_refl eq_refl
           Hk eq_refl eq_refl).
Defined.

Lemma cache_never_evicts_sample :
  exists client,
    clients optimism_cached !! 10 = Some client
    /\ clients (perform parameters (act_getClient (Some 1)) optimism_cached)
       !! 10 = Some client.
Proof.
  eexists. split; [reflexivity|].
  exact (cache_never_evicts parameters (act_getClient (Some 1))
           optimism_cached 10 _ eq_refl).
Defined.

Lemma getClient_cached_sample :
  priority_connector (State.current (store cached_then_priority))
    (connectors cached_then_priority) = Some safe
  /\ exists client,
       Client.transport client = configured_transport 1
       /\ getClient parameters (Some 1) cached_then_priority
          = (Normal client, cached_then_priority).
Proof.
  split; [reflexivity|]. eexists. split; [|
  exact (getClient_cached parameters 1 cached_then_priority _
           eq_refl eq_refl)]. reflexivity.
Defined.

Lemma getClient_builds_sample :
  clients fresh !! 10 = None
  /\ exists client,
       fst (getClient parameters (Some 10) fresh) = Normal client
       /\ clients (snd (getClient parameters (Some 10) fresh)) !! 10
          = Some client.
Proof.
  split; [reflexivity|].
  destruct (getClient_builds_and_caches parameters 10 fresh
              eq_refl eq_refl eq_refl eq_refl)
    as (client & Hfst & _ & _ & _ & Hcached & _).
  exists client. split; assumption.
Defined.

Lemma getClient_configured_sample :
  reachable parameters any_action safe_connected
  /\ exists client,
       fst (getClient parameters (Some 1) safe_connected) = Normal client
       /\ Chain.id (Client.chain client) = 1.
Proof.
  assert (H : reachable parameters any_action safe_connected).
  { apply reachable_step; [apply reachable_initial | exact I]. }
  split; [exact H|].
  exact (getClient_configured parameters 1 safe_connected eq_refl H eq_refl).
Defined.

Lemma getClient_default_sample :
  reachable parameters (configured_setState parameters) three_connected
  /\ exists client,
       fst (getClient parameters None three_connected) = Normal client
       /\ Chain.id (Client.chain client)
          = State.chainId (store three_connected).
Proof.
  assert (H : reachable parameters (configured_setState parameters)
                three_connected).
  { repeat (apply reachable_step; [|exact I]). apply reachable_initial. }
  split; [exact H|].
  exact (getClient_default_succeeds parameters three_connected eq_refl H).
Defined.

Lemma getClient_memoized_sample :
  exists client w1,
    getClient parameters (Some 1) fresh = (Normal client, w1)
    /\ getClient parameters (Some 1) w1 = (Normal client, w1).
Proof.
  exact (getClient_memoized parameters 1 fresh mainnet eq_refl eq_refl).
Defined.

Lemma setState_resets_sample :
  typeof (js_number 3) <> "object"
  /\ setState parameters (js_number 3) three_connected
     = (Normal tt, with_store (initialState parameters) three_connected).
Proof.
  assert (Htype : typeof (js_number 3) <> "object") by (cbn; congruence).
  assert (Hnull : js_number 3 <> js_null) by congruence.
  split; [exact Htype|].
  exact (setState_resets parameters (js_number 3) three_connected
           Hnull (or_introl Htype)).
Defined.

Lemma setState_complete_sample :
  let value := js_object (of_state rehydrated_state) in
  to_state (of_state rehydrated_state) = Some rehydrated_state
  /\ State.connections (store (snd (setState parameters value fresh)))
     = State.connections rehydrated_state.
Proof.
  split; [reflexivity|].
  exact (proj1 (proj2 (setState_complete parameters
                         (js_object (of_state rehydrated_state)) fresh
                         (of_state rehydrated_state) rehydrated_state
                         eq_refl eq_refl))).
Defined.

Lemma resume_selects_connector_sample :
  let env' := ConnectorTransport.resume 0 second_works_env in
  ConnectorTransport.successfulConnector second_works_env = None
  /\ ConnectorTransport.successfulConnector env' = Some working_connector
  /\ fst (ConnectorTransport.request "eth_chainId" [] env')
     = ConnectorTransport.Fulfilled "0x1".
Proof.
  split; [reflexivity|].
  destruct (ConnectorTransportMore.resume_selects_connector 0 second_works_env
              {| ConnectorTransport.probed := working_connector;
                 ConnectorTransport.awaited :=
                   ConnectorTransport.Fulfilled (Some answering_provider) |}
              answering_provider eq_refl eq_refl) as [Hsel Hreq].
  split; [exact Hsel|].
  exact (Hreq "eth_chainId" [] answering_provider eq_refl).
Defined.

Lemma selected_connector_resolved_sample :
  ConnectorTransport.successfulConnector
    (ConnectorTransport.after [1%nat; 0%nat] second_works_env)
  = Some working_connector
  /\ In (ConnectorTransport.Returns working_connector) second_works.
Proof.
  split; [reflexivity|].
  exact (proj1 (ConnectorTransportMore.selected_connector_resolved second_works
                  default_config [1%nat; 0%nat] working_connector eq_refl)).
Defined.

End MoreSampleFacts.
